(** * pyhf.utils: schema cache, validation entry point and small helpers

    A shallow embedding of [src/pyhf/utils.py].

    The module keeps one piece of state, the dictionary [SCHEMA_CACHE]; it is
    threaded explicitly through [load_schema] and [validate].  Everything the
    module reaches through an import (pathlib and the packaged schema and
    citation files, yaml, float.__repr__, hashlib, the reference resolver of
    jsonschema, the interpreter's recursion limit) is a parameter of the
    definition that uses it, so that every statement below holds for all
    behaviours of those collaborators.  The parts of json and jsonschema whose behaviour decides a
    property (key sorted serialisation, the keyword walk of the Draft 6
    validator) are written out.  [__dir__] only returns a constant and is
    left out.

    Conventions.
    - A Python [str] is represented by its UTF-8 encoding, a [string] of
      bytes.  Splitting at ['='], joining, JSON escaping and code point
      ordering act on that encoding exactly as they act on the code points,
      and [str.encode('utf8')] is the identity.
    - A Python [dict] is an association list in insertion order whose keys
      are strings, as in a decoded JSON document.
    - A Python [float] is an IEEE 754 binary64 value, a [spec_float].
    - The text [citation] works on is kept as the list of its code points,
      because stripping and line splitting go by classes of code points. *)

From Stdlib Require Import ZArith String Ascii List DecimalString.
From Corelib Require Import SpecFloat.
From stdpp Require Import gmap strings list sorting.

Local Open Scope Z_scope.
Local Set Warnings "-register-all".

(* ===================================================================== *)
(** * Part I: the model                                                    *)
(* ===================================================================== *)

(** ** Python values *)

(** The values that travel through the module: decoded JSON documents, plus
    [PObject cls], an instance of a class [cls] that is none of the JSON base
    types (a backend tensor such as a numpy array, a set, a date). *)
Inductive pyval : Type :=
| PNone
| PBool (b : bool)
| PInt (z : Z)
| PFloat (f : spec_float)
| PStr (s : string)
| PList (items : list pyval)
| PDict (items : list (string * pyval))
| PObject (cls : string).

(** One step of the location of a violation: a property name or an index. *)
Inductive path_elem : Type :=
| Key (name : string)
| Index (i : nat).

(** [jsonschema.ValidationError], without its message text and its
    [context] of nested errors: the keyword that failed ([None] for the
    [False] schema), the keyword's value, the offending instance, and the
    relative paths into the instance and into the schema. *)
Record ValidationError : Type := {
  validator : option string;
  validator_value : pyval;
  instance : pyval;
  path : list path_elem;
  schema_path : list path_elem
}.

(** The exceptions that can leave the functions of the module.
    [InvalidSpecification err schema] is built at line 131 from the caught
    validation error and the [schema_id] argument.  [OutsideModel] marks
    library behaviour this development does not describe. *)
Inductive exn : Type :=
| IndexError
| KeyError (key : string)
| TypeError
| AttributeError
| ValueError (msg : string)
| FileNotFoundError
| OSError
| JSONDecodeError
| YAMLError
| RecursionError
| RefResolutionError
| UnknownType (ty : string)
| InvalidSpecification (err : ValidationError) (schema : string)
| BadParameter (msg : string)
| OutsideModel (what : string).

(** The outcome of a call: a returned value or a raised exception. *)
Inductive result (A : Type) : Type :=
| Return (a : A)
| Raise (e : exn).
Arguments Return {A} a.
Arguments Raise {A} e.

#[global] Instance result_ret : MRet result := fun A a => Return a.
#[global] Instance result_bind : MBind result := fun A B f r =>
  match r with
  | Return a => f a
  | Raise e => Raise e
  end.
#[global] Instance result_fmap : FMap result := fun A B f r =>
  match r with
  | Return a => Return (f a)
  | Raise e => Raise e
  end.

(** Evaluate a list of computations from left to right, stopping at the
    first exception (a Python loop or comprehension over the list). *)
Fixpoint sequence {A} (rs : list (result A)) : result (list A) :=
  match rs with
  | [] => Return []
  | r :: rs' => a ← r; as' ← sequence rs'; Return (a :: as')
  end.

(** ** Strings *)

(** [newline] is the character [\n], [dquote] the double quote. *)
Definition newline : ascii := "010"%char.
Definition dquote : ascii := "034"%char.
Definition backslash : ascii := "092"%char.

(** [sep.join(parts)]. *)
Fixpoint join (sep : string) (parts : list string) : string :=
  match parts with
  | [] => EmptyString
  | [p] => p
  | p :: rest => p +:+ sep +:+ join sep rest
  end.

(** [s.partition(c)] restricted to the case where [c] occurs: the text
    before and after the first occurrence of the character [c]. *)
Fixpoint cut (c : ascii) (s : string) : option (string * string) :=
  match s with
  | EmptyString => None
  | String a s' =>
      if Ascii.eqb a c then Some (EmptyString, s')
      else match cut c s' with
           | Some (before, after) => Some (String a before, after)
           | None => None
           end
  end.

(** [s.split(c, 1)]: two parts when [c] occurs, the string itself
    otherwise. *)
Definition split1 (c : ascii) (s : string) : list string :=
  match cut c s with
  | Some (before, after) => [before; after]
  | None => [s]
  end.

(** [xs[i]] on a list: [IndexError] past the end. *)
Definition getitem {A} (xs : list A) (i : nat) : result A :=
  match xs !! i with
  | Some x => Return x
  | None => Raise IndexError
  end.

(** [c in s] for a character [c]. *)
Fixpoint contains (c : ascii) (s : string) : bool :=
  match s with
  | EmptyString => false
  | String a s' => Ascii.eqb a c || contains c s'
  end.

(** ** Option strings: [options_from_eqdelimstring], [EqDelimStringParamType] *)

Section OptionParsing.

(** [yaml.safe_load] applied to a stream that is not empty.  What PyYAML
    makes of a document is left open. *)
Variable yaml_load_document : string -> result pyval.

(** [yaml.safe_load(stream)]: the loader returns [None] when the stream
    holds no document, which is the case of the empty string. *)
Definition safe_load (stream : string) : result pyval :=
  match stream with
  | EmptyString => Return PNone
  | String _ _ => yaml_load_document stream
  end.

(** The f-string of line 136 for one [opt]: both subscripts are evaluated,
    [opt.split('=', 1)[1]] raising [IndexError] when [opt] has no ['=']. *)
Definition option_line (opt : string) : result string :=
  key ← getitem (split1 "=" opt) 0;
  value ← getitem (split1 "=" opt) 1;
  Return (key +:+ ": " +:+ value).

(** Lines 134-138.  [str.join] consumes the whole generator before it
    builds the document, so an exception in any entry leaves the function
    before [yaml.safe_load] is called. *)
Definition options_from_eqdelimstring (opts : list string) : result pyval :=
  lines ← sequence (option_line <$> opts);
  safe_load (join (String newline EmptyString) lines).

(** [EqDelimStringParamType.convert], lines 144-148: [self.fail] raises
    click's [BadParameter] with the message. *)
Definition convert (value : string) : result pyval :=
  match options_from_eqdelimstring [value] with
  | Raise IndexError =>
      Raise (BadParameter (value +:+ " is not a valid equal-delimited string"))
  | r => r
  end.

End OptionParsing.

(** ** [json.dumps(obj, sort_keys=True, ensure_ascii=False)] *)

(** [int.__repr__]. *)
Definition int_repr (z : Z) : string := NilZero.string_of_int (Z.to_int z).

Definition hex_digit (n : N) : ascii :=
  match n with
  | 0 => "0" | 1 => "1" | 2 => "2" | 3 => "3" | 4 => "4" | 5 => "5"
  | 6 => "6" | 7 => "7" | 8 => "8" | 9 => "9" | 10 => "a" | 11 => "b"
  | 12 => "c" | 13 => "d" | 14 => "e" | _ => "f"
  end%N%char.

(** The replacement of one character in [json.encoder.py_encode_basestring]
    ([ESCAPE_DCT]): backslash, double quote and the control characters
    below 0x20 are escaped, everything else is kept. *)
Definition escape_char (c : ascii) : string :=
  let n := N_of_ascii c in
  if Ascii.eqb c backslash then String backslash (String backslash EmptyString)
  else if Ascii.eqb c dquote then String backslash (String dquote EmptyString)
  else if (n =? 8)%N then "\b"
  else if (n =? 12)%N then "\f"
  else if (n =? 10)%N then "\n"
  else if (n =? 13)%N then "\r"
  else if (n =? 9)%N then "\t"
  else if (n <? 32)%N then
    "\u00" +:+ String (hex_digit (n / 16)) (String (hex_digit (n mod 16)) EmptyString)
  else String c EmptyString.

Fixpoint escape (s : string) : string :=
  match s with
  | EmptyString => EmptyString
  | String c s' => escape_char c +:+ escape s'
  end.

Definition encode_basestring (s : string) : string :=
  String dquote (escape s +:+ String dquote EmptyString).

(** The order of [sorted(dct.items())]: the keys of a dictionary are
    distinct, so two items are always ordered by their keys, and strings
    compare by code points. *)
Definition item_le {A} : relation (string * A) := fun a b => String.le a.1 b.1.

#[global] Instance item_le_dec {A} : RelDecision (@item_le A).
Proof. intros a b. unfold item_le. apply _. Defined.

Definition sorted_items {A} (items : list (string * A)) : list (string * A) :=
  merge_sort item_le items.

Section Json.

(** [float.__repr__] on a finite float: the shortest decimal text that
    reads back as the same float. *)
Variable float_repr : spec_float -> string.

(** [floatstr] of [json.encoder] with [allow_nan=True]. *)
Definition floatstr (f : spec_float) : string :=
  match f with
  | S754_nan => "NaN"
  | S754_infinity false => "Infinity"
  | S754_infinity true => "-Infinity"
  | _ => float_repr f
  end.

(** The encoder.  Separators are [", "] and [": "]; a dictionary is
    written with its items sorted by key; an object that is no JSON value
    makes [default] raise [TypeError].  The members of a dictionary are
    encoded in sorted order, so the first failure in that order is the one
    raised. *)
Fixpoint dumps (o : pyval) : result string :=
  match o with
  | PNone => Return "null"
  | PBool true => Return "true"
  | PBool false => Return "false"
  | PInt z => Return (int_repr z)
  | PFloat f => Return (floatstr f)
  | PStr s => Return (encode_basestring s)
  | PList items =>
      parts ← sequence (map dumps items);
      Return ("[" +:+ join ", " parts +:+ "]")
  | PDict items =>
      let member kv :=
        match kv with
        | (k, v) => (k, (fun s => encode_basestring k +:+ ": " +:+ s) <$> dumps v)
        end in
      parts ← sequence (snd <$> sorted_items (map member items));
      Return ("{" +:+ join ", " parts +:+ "}")
  | PObject _ => Raise TypeError
  end.

(** The members of a dictionary as [dumps] encodes them, before sorting. *)
Definition dict_members (items : list (string * pyval))
    : list (string * result string) :=
  (fun kv => (kv.1, (fun s => encode_basestring kv.1 +:+ ": " +:+ s)
                      <$> dumps kv.2)) <$> items.

End Json.

(** ** [digest] *)

(** What [getattr(hashlib, name)] can be bound to. *)
Inductive hashlib_attr : Type :=
| hash_constructor (hexdigest : string -> string)
    (* md5, sha256, ...: [hash_alg(data).hexdigest()] is the digest of data *)
| xof_constructor
    (* shake_128, shake_256: [hexdigest] needs a length argument *)
| other_attr.
    (* any other attribute of the module: [new], [algorithms_guaranteed], ... *)

(** [hash_alg(stringified).hexdigest()] for each kind of attribute. *)
Definition call_hexdigest (attr : hashlib_attr) (data : string) : result string :=
  match attr with
  | hash_constructor hexdigest => Return (hexdigest data)
  | xof_constructor => Raise TypeError
  | other_attr => Raise TypeError
  end.

Section Digest.

Variable float_repr : spec_float -> string.

(** [getattr(hashlib, name)]; [None] stands for [AttributeError]. *)
Variable hashlib : string -> option hashlib_attr.

(** Lines 151-191. *)
Definition digest (obj : pyval) (algorithm : string) : result string :=
  match dumps float_repr obj with
  | Raise TypeError =>
      Raise (ValueError
        "The supplied object is not JSON-serializable for calculating a hash.")
  | Raise e => Raise e
  | Return stringified =>
      match hashlib algorithm with
      | None =>
          Raise (ValueError
            (algorithm +:+ " is not an algorithm provided by Python's hashlib library."))
      | Some hash_alg => call_hexdigest hash_alg stringified
      end
  end.

End Digest.

(** The attributes of [hashlib] that its documentation lists for every
    build: the constructors of the guaranteed algorithms, the two
    extendable-output constructors, and [new], [algorithms_guaranteed] and
    [algorithms_available].  [impl name] is the hex digest function of the
    algorithm [name]. *)
Definition hashlib_documented (impl : string -> string -> string)
    (name : string) : option hashlib_attr :=
  if bool_decide (name ∈ ["md5"; "sha1"; "sha224"; "sha256"; "sha384"; "sha512";
                          "blake2b"; "blake2s";
                          "sha3_224"; "sha3_256"; "sha3_384"; "sha3_512"])
  then Some (hash_constructor (impl name))
  else if bool_decide (name ∈ ["shake_128"; "shake_256"]) then Some xof_constructor
  else if bool_decide (name ∈ ["new"; "algorithms_guaranteed"; "algorithms_available"])
  then Some other_attr
  else None.

(** ** The schema cache: [load_schema] *)

Definition SCHEMA_BASE : string := "https://scikit-hep.org/pyhf/schemas/".
Definition SCHEMA_VERSION : string := "1.0.0".

(** [d.get(key)] on the items of a dictionary. *)
Fixpoint dict_get (items : list (string * pyval)) (key : string) : option pyval :=
  match items with
  | [] => None
  | (k, v) :: rest => if String.eqb k key then Some v else dict_get rest key
  end.

(** [o[key]] for a string [key], on a decoded JSON value [o]. *)
Definition subscript (o : pyval) (key : string) : result pyval :=
  match o with
  | PDict items =>
      match dict_get items key with
      | Some v => Return v
      | None => Raise (KeyError key)
      end
  | PObject _ => Raise (OutsideModel "subscript of an object")
  | _ => Raise TypeError
  end.

Section SchemaCache.

(** [str(Path(version).joinpath(schema_id))]. *)
Variable joinpath : string -> string -> string.

(** The schema store: opening the packaged file
    [schemas/<version>/<schema_id>] and decoding it with [json.load].
    A file that does not exist gives [FileNotFoundError]. *)
Variable read_schema : string -> string -> result pyval.

(** [if not version: version = SCHEMA_VERSION] (line 57): both [None] and
    the empty string select the default. *)
Definition version_or_default (version : option string) : string :=
  match version with
  | None | Some EmptyString => SCHEMA_VERSION
  | Some v => v
  end.

(** The key under which [load_schema] looks the request up (line 60). *)
Definition cache_key (version : option string) (schema_id : string) : string :=
  SCHEMA_BASE +:+ joinpath (version_or_default version) schema_id.

(** Lines 56-70, as a function from the cache before the call to the
    outcome and the cache after it.  A schema read from the store is
    entered under the identifier it declares in ["$id"], not under the key
    that was looked up. *)
Definition load_schema (SCHEMA_CACHE : gmap string pyval)
    (schema_id : string) (version : option string)
    : result pyval * gmap string pyval :=
  match SCHEMA_CACHE !! cache_key version schema_id with
  | Some schema => (Return schema, SCHEMA_CACHE)
  | None =>
      match read_schema (version_or_default version) schema_id with
      | Raise e => (Raise e, SCHEMA_CACHE)
      | Return schema =>
          match subscript schema "$id" with
          | Raise e => (Raise e, SCHEMA_CACHE)
          | Return (PStr id) =>
              let cache := <[id := schema]> SCHEMA_CACHE in
              (match cache !! id with
               | Some cached => Return cached
               | None => Raise (KeyError id)
               end, cache)
          | Return (PList _) | Return (PDict _) => (Raise TypeError, SCHEMA_CACHE)
          | Return _ =>
              (Raise (OutsideModel "schema identifier that is not a string"),
               SCHEMA_CACHE)
          end
      end
  end.

(** Line 74: the module loads [defs.json] when it is imported. *)
Definition cache_after_import : result pyval * gmap string pyval :=
  load_schema ∅ "defs.json" None.

End SchemaCache.

(** ** The Draft 6 validator of jsonschema *)

(** A generator of validation errors, as seen by its consumer: it ends,
    yields an error and goes on, or raises.  Nothing after a [Throw] is ever
    computed by Python, and nothing after the first [Yield] is computed when
    the consumer stops there. *)
Inductive errors : Type :=
| Stop
| Yield (e : ValidationError) (rest : errors)
| Throw (x : exn).

(** [yield from g1; yield from g2]. *)
Fixpoint chain (g1 g2 : errors) : errors :=
  match g1 with
  | Stop => g2
  | Yield e rest => Yield e (chain rest g2)
  | Throw x => Throw x
  end.

Definition chain_all (gs : list errors) : errors := foldr chain Stop gs.

(** Adjust every error on its way up. *)
Fixpoint each (f : ValidationError -> ValidationError) (g : errors) : errors :=
  match g with
  | Stop => Stop
  | Yield e rest => Yield (f e) (each f rest)
  | Throw x => Throw x
  end.

(** [list(g)]. *)
Fixpoint collect (g : errors) : result (list ValidationError) :=
  match g with
  | Stop => Return []
  | Yield e rest => es ← collect rest; Return (e :: es)
  | Throw x => Raise x
  end.

(** [next(g, None) is None], the test of [Validator.is_valid]. *)
Definition no_error (g : errors) : result bool :=
  match g with
  | Stop => Return true
  | Yield _ _ => Return false
  | Throw x => Raise x
  end.

(** An error created by the function of keyword [k] with value [v], before
    any path is attached. *)
Definition violation (k : string) (v inst : pyval) : ValidationError :=
  {| validator := Some k; validator_value := v; instance := inst;
     path := []; schema_path := [] |}.

(** [error.path.appendleft(p)] and [error.schema_path.appendleft(p)]. *)
Definition path_appendleft (p : path_elem) (e : ValidationError) : ValidationError :=
  {| validator := validator e; validator_value := validator_value e;
     instance := instance e; path := p :: path e; schema_path := schema_path e |}.

Definition schema_path_appendleft (p : path_elem) (e : ValidationError)
    : ValidationError :=
  {| validator := validator e; validator_value := validator_value e;
     instance := instance e; path := path e; schema_path := p :: schema_path e |}.

(** *** Type checking *)

(** A [TypeChecker]: the check registered under each type name. *)
Definition TypeChecker : Type := string -> option (pyval -> bool).

(** [float.is_integer]. *)
Definition is_integer (f : spec_float) : bool :=
  match f with
  | S754_zero _ => true
  | S754_finite _ m e => (0 <=? e) || (Z.pos m mod 2 ^ (- e) =? 0)
  | S754_infinity _ | S754_nan => false
  end.

(** The checks of [Draft6Validator.TYPE_CHECKER]. *)
Definition draft6_type_checker : TypeChecker := fun ty =>
  if String.eqb ty "array" then
    Some (fun x => match x with PList _ => true | _ => false end)
  else if String.eqb ty "boolean" then
    Some (fun x => match x with PBool _ => true | _ => false end)
  else if String.eqb ty "integer" then
    Some (fun x => match x with
                   | PInt _ => true
                   | PFloat f => is_integer f
                   | _ => false
                   end)
  else if String.eqb ty "null" then
    Some (fun x => match x with PNone => true | _ => false end)
  else if String.eqb ty "number" then
    Some (fun x => match x with PInt _ | PFloat _ => true | _ => false end)
  else if String.eqb ty "object" then
    Some (fun x => match x with PDict _ => true | _ => false end)
  else if String.eqb ty "string" then
    Some (fun x => match x with PStr _ => true | _ => false end)
  else None.

(** [TYPE_CHECKER.redefine(ty, check)]. *)
Definition redefine (ty : string) (check : pyval -> bool) (tc : TypeChecker)
    : TypeChecker :=
  fun t => if String.eqb t ty then Some check else tc t.

(** [validator.is_type(instance, ty)]: a type name without a check raises
    [UnknownType]. *)
Definition is_type (tc : TypeChecker) (inst : pyval) (ty : string) : result bool :=
  match tc ty with
  | Some check => Return (check inst)
  | None => Raise (UnknownType ty)
  end.

(** Lines 77-85: [isinstance(instance, (list, *tensor.array_types))], with
    the registered array types given by the names of their classes. *)
Definition _is_array_or_tensor (array_types : list string) (inst : pyval) : bool :=
  match inst with
  | PList _ => true
  | PObject cls => bool_decide (cls ∈ array_types)
  | _ => false
  end.

(** *** Keywords *)

(** Python truth of a decoded JSON value ([if scope:]). *)
Definition truthy (v : pyval) : bool :=
  match v with
  | PNone => false
  | PBool b => b
  | PInt z => negb (z =? 0)
  | PFloat (S754_zero _) => false
  | PFloat _ => true
  | PStr s => negb (String.eqb s EmptyString)
  | PList items => negb (bool_decide (items = []))
  | PDict items => negb (bool_decide (items = []))
  | PObject _ => true
  end.

(** The resolution scope inside a schema object: a truthy ["$id"] is
    pushed on the resolver's stack ([id_of] and [push_scope]). *)
Definition scope_of (scope : pyval) (keywords : list (string * pyval)) : pyval :=
  match dict_get keywords "$id" with
  | Some id => if truthy id then id else scope
  | None => scope
  end.

(** The keywords of [Draft6Validator.VALIDATORS] whose functions are not
    described here. *)
Definition unmodelled_keywords : list string :=
  ["additionalItems"; "additionalProperties"; "const"; "contains";
   "dependencies"; "enum"; "exclusiveMaximum"; "exclusiveMinimum";
   "maxItems"; "maxLength"; "maxProperties"; "maximum"; "minItems";
   "minLength"; "minProperties"; "minimum"; "multipleOf"; "pattern";
   "patternProperties"; "propertyNames"; "uniqueItems"].

Section Keywords.

Variable type_checker : TypeChecker.

(** [resolver.resolve(ref)] in the current resolution scope: the new scope
    and the schema the reference points to. *)
Variable resolve : pyval -> pyval -> result (pyval * pyval).

(** [validator.iter_errors(instance, schema)] one level down, in a given
    resolution scope. *)
Variable descend : pyval -> pyval -> pyval -> errors.

(** Run [body] when [inst] has type [ty], do nothing otherwise. *)
Definition when_type (inst : pyval) (ty : string) (body : errors) : errors :=
  match is_type type_checker inst ty with
  | Raise x => Throw x
  | Return true => body
  | Return false => Stop
  end.

(** [any(validator.is_type(instance, type) for type in types)]. *)
Fixpoint any_type (inst : pyval) (types : list pyval) : result bool :=
  match types with
  | [] => Return false
  | PStr ty :: rest =>
      ok ← is_type type_checker inst ty;
      if ok : bool then Return true else any_type inst rest
  | _ :: _ => Raise (OutsideModel "type name that is not a string")
  end.

Definition kw_type (types inst : pyval) : errors :=
  let names :=
    match types with
    | PStr ty => Return [PStr ty]
    | PList names => Return names
    | PDict members => Return (PStr <$> members.*1)
    | _ => Raise TypeError
    end in
  match names ≫= any_type inst with
  | Raise x => Throw x
  | Return true => Stop
  | Return false => Yield (violation "type" types inst) Stop
  end.

Definition kw_properties (scope properties inst : pyval) : errors :=
  when_type inst "object"
    match properties, inst with
    | PDict subschemas, PDict members =>
        chain_all
          (map (fun ps =>
                  match ps with
                  | (property, subschema) =>
                      match dict_get members property with
                      | Some value =>
                          each (fun e => schema_path_appendleft (Key property)
                                           (path_appendleft (Key property) e))
                               (descend scope subschema value)
                      | None => Stop
                      end
                  end)
               subschemas)
    | PDict _, _ => Throw (OutsideModel "object that is not a dict")
    | _, _ => Throw AttributeError
    end.

Definition kw_required (required inst : pyval) : errors :=
  when_type inst "object"
    match required, inst with
    | PList names, PDict members =>
        chain_all
          (map (fun name =>
                  match name with
                  | PStr property =>
                      match dict_get members property with
                      | Some _ => Stop
                      | None => Yield (violation "required" required inst) Stop
                      end
                  | PList _ | PDict _ => Throw TypeError
                  | _ => Yield (violation "required" required inst) Stop
                  end)
               names)
    | _, _ => Throw (OutsideModel "required that is not a list, or object that is not a dict")
    end.

(** The positions of a list, for [enumerate]. *)
Definition enumerate {A} (xs : list A) : list (nat * A) := zip (seq 0 (length xs)) xs.

Definition kw_items (scope items inst : pyval) : errors :=
  when_type inst "array"
    match inst with
    | PList elements =>
        match is_type type_checker items "array", items with
        | Raise x, _ => Throw x
        | Return true, PList subschemas =>
            chain_all
              (map (fun c =>
                      match c with
                      | ((index, item), subschema) =>
                          each (fun e => schema_path_appendleft (Index index)
                                           (path_appendleft (Index index) e))
                               (descend scope subschema item)
                      end)
                   (zip (enumerate elements) subschemas))
        | Return true, _ => Throw (OutsideModel "items given by a tensor")
        | Return false, _ =>
            chain_all
              (map (fun c =>
                      match c with
                      | (index, item) =>
                          each (path_appendleft (Index index)) (descend scope items item)
                      end)
                   (enumerate elements))
        end
    | _ => Throw (OutsideModel "iteration over a tensor")
    end.

Definition kw_allOf (scope allOf inst : pyval) : errors :=
  match allOf with
  | PList subschemas =>
      chain_all
        (map (fun c =>
                match c with
                | (index, subschema) =>
                    each (schema_path_appendleft (Index index))
                         (descend scope subschema inst)
                end)
             (enumerate subschemas))
  | _ => Throw (OutsideModel "allOf that is not a list")
  end.

(** The first loop of [anyOf] and [oneOf]: the subschemas after the first
    one under which the instance is valid, or [None] when the loop runs to
    its [else]. *)
Fixpoint after_first_valid (scope inst : pyval) (subschemas : list pyval)
    : result (option (list pyval)) :=
  match subschemas with
  | [] => Return None
  | subschema :: rest =>
      errs ← collect (descend scope subschema inst);
      match errs with
      | [] => Return (Some rest)
      | _ :: _ => after_first_valid scope inst rest
      end
  end.

Definition kw_anyOf (scope anyOf inst : pyval) : errors :=
  match anyOf with
  | PList subschemas =>
      match after_first_valid scope inst subschemas with
      | Raise x => Throw x
      | Return (Some _) => Stop
      | Return None => Yield (violation "anyOf" anyOf inst) Stop
      end
  | _ => Throw (OutsideModel "anyOf that is not a list")
  end.

Definition is_valid (scope subschema inst : pyval) : result bool :=
  no_error (descend scope subschema inst).

(** [[s for i, s in subschemas if validator.is_valid(instance, s)]]. *)
Fixpoint more_valid (scope inst : pyval) (subschemas : list pyval)
    : result (list pyval) :=
  match subschemas with
  | [] => Return []
  | subschema :: rest =>
      ok ← is_valid scope subschema inst;
      others ← more_valid scope inst rest;
      Return (if ok : bool then subschema :: others else others)
  end.

Definition kw_oneOf (scope oneOf inst : pyval) : errors :=
  match oneOf with
  | PList subschemas =>
      match after_first_valid scope inst subschemas with
      | Raise x => Throw x
      | Return None => Yield (violation "oneOf" oneOf inst) Stop
      | Return (Some rest) =>
          match more_valid scope inst rest with
          | Raise x => Throw x
          | Return [] => Stop
          | Return (_ :: _) => Yield (violation "oneOf" oneOf inst) Stop
          end
      end
  | _ => Throw (OutsideModel "oneOf that is not a list")
  end.

Definition kw_not (scope not_schema inst : pyval) : errors :=
  match is_valid scope not_schema inst with
  | Raise x => Throw x
  | Return true => Yield (violation "not" not_schema inst) Stop
  | Return false => Stop
  end.

Definition kw_ref (scope ref inst : pyval) : errors :=
  match resolve scope ref with
  | Raise x => Throw x
  | Return (url, resolved) => descend url resolved inst
  end.

(** The body of the loop of [iter_errors] for one keyword [k] with value
    [v]: look the keyword's function up, run it, and prefix the schema path
    of its errors with [k] (not for ["$ref"]).  A key that is no keyword of
    the validator is skipped; ["format"] does nothing because [validate]
    passes [format_checker=None]. *)
Definition run_keyword (scope : pyval) (k : string) (v inst : pyval) : errors :=
  if String.eqb k "$ref" then kw_ref scope v inst
  else
    each (schema_path_appendleft (Key k))
      (if String.eqb k "type" then kw_type v inst
       else if String.eqb k "properties" then kw_properties scope v inst
       else if String.eqb k "required" then kw_required v inst
       else if String.eqb k "items" then kw_items scope v inst
       else if String.eqb k "allOf" then kw_allOf scope v inst
       else if String.eqb k "anyOf" then kw_anyOf scope v inst
       else if String.eqb k "oneOf" then kw_oneOf scope v inst
       else if String.eqb k "not" then kw_not scope v inst
       else if existsb (String.eqb k) unmodelled_keywords then Throw (OutsideModel k)
       else Stop).

End Keywords.

(** [Validator.iter_errors(instance, _schema)].  [depth] bounds the nesting
    of calls, as the interpreter's recursion limit does; a schema that
    refers to itself exhausts it. *)
Fixpoint iter_errors (type_checker : TypeChecker)
    (resolve : pyval -> pyval -> result (pyval * pyval))
    (depth : nat) (scope _schema inst : pyval) {struct depth} : errors :=
  match depth with
  | O => Throw RecursionError
  | S d =>
      match _schema with
      | PBool true => Stop
      | PBool false =>
          Yield {| validator := None; validator_value := PNone; instance := inst;
                   path := []; schema_path := [] |} Stop
      | PDict keywords =>
          let scope := scope_of scope keywords in
          let run kv :=
            match kv with
            | (k, v) =>
                run_keyword type_checker resolve (iter_errors type_checker resolve d)
                            scope k v inst
            end in
          match dict_get keywords "$ref" with
          | None | Some PNone => chain_all (map run keywords)
          | Some ref => run ("$ref", ref)
          end
      | _ => Throw AttributeError
      end
  end.

(** ** What the keywords require *)

(** A generator that runs to its end without raising, and one that yields
    nothing at all. *)
Fixpoint finished (g : errors) : bool :=
  match g with
  | Stop => true
  | Yield _ rest => finished rest
  | Throw _ => false
  end.

Definition is_stop (g : errors) : bool :=
  match g with
  | Stop => true
  | Yield _ _ | Throw _ => false
  end.

(** [agrees g b]: the generator [g] runs to its end, and it yields nothing
    exactly when [b] holds. *)
Definition agrees (g : errors) (b : bool) : Prop :=
  finished g = true /\ is_stop g = b.

(** The nesting depth of a document. *)
Fixpoint height (v : pyval) : nat :=
  match v with
  | PList items => S (foldr Nat.max 0%nat (map height items))
  | PDict members =>
      S (foldr Nat.max 0%nat (map (fun kv => match kv with (_, x) => height x end) members))
  | _ => 0%nat
  end.

(** A decoded JSON document: no tensor or other object inside. *)
Fixpoint json_value (v : pyval) : bool :=
  match v with
  | PObject _ => false
  | PList items => forallb json_value items
  | PDict members => forallb (fun kv => match kv with (_, x) => json_value x end) members
  | _ => true
  end.

Fixpoint all2 {A B} (f : A -> B -> bool) (xs : list A) (ys : list B) : bool :=
  match xs, ys with
  | x :: xs', y :: ys' => f x y && all2 f xs' ys'
  | _, _ => true
  end.

Section Satisfaction.

Variable type_checker : TypeChecker.

Definition has_type (inst : pyval) (ty : string) : bool :=
  match type_checker ty with
  | Some check => check inst
  | None => false
  end.

Definition has_named_type (inst name : pyval) : bool :=
  match name with
  | PStr ty => has_type inst ty
  | _ => false
  end.

Definition has_member (members : list (string * pyval)) (name : pyval) : bool :=
  match name with
  | PStr property => bool_decide (is_Some (dict_get members property))
  | _ => false
  end.

(** What one keyword asks of an instance, in the words of the
    specification: a type constraint asks for one of the named types;
    [properties] constrains the members that are present and [required]
    asks for members to be present; [items] constrains the elements of a
    sequence; all-of requires every branch to pass, any-of at least one,
    one-of exactly one, and negation requires the sub-schema to fail.
    [sat] is satisfaction of a sub-schema. *)
Definition keyword_satisfied (sat : pyval -> pyval -> bool)
    (k : string) (v inst : pyval) : bool :=
  if String.eqb k "type" then
    match v with
    | PStr ty => has_type inst ty
    | PList names => existsb (has_named_type inst) names
    | _ => false
    end
  else if String.eqb k "properties" then
    match v, inst with
    | PDict subschemas, PDict members =>
        forallb (fun ps =>
                   match ps with
                   | (property, subschema) =>
                       match dict_get members property with
                       | Some value => sat subschema value
                       | None => true
                       end
                   end)
                subschemas
    | _, _ => true
    end
  else if String.eqb k "required" then
    match v, inst with
    | PList names, PDict members => forallb (has_member members) names
    | _, _ => true
    end
  else if String.eqb k "items" then
    match inst with
    | PList elements =>
        match v with
        | PList subschemas => all2 sat subschemas elements
        | _ => forallb (sat v) elements
        end
    | _ => true
    end
  else if String.eqb k "allOf" then
    match v with
    | PList subschemas => forallb (fun subschema => sat subschema inst) subschemas
    | _ => true
    end
  else if String.eqb k "anyOf" then
    match v with
    | PList subschemas => existsb (fun subschema => sat subschema inst) subschemas
    | _ => true
    end
  else if String.eqb k "oneOf" then
    match v with
    | PList subschemas =>
        Nat.eqb (length (List.filter (fun subschema => sat subschema inst) subschemas)) 1
    | _ => true
    end
  else if String.eqb k "not" then negb (sat v inst)
  else true.

(** An instance satisfies a schema when it passes every keyword of it. *)
Fixpoint satisfies (schema inst : pyval) {struct schema} : bool :=
  match schema with
  | PBool b => b
  | PDict keywords =>
      forallb (fun kv =>
                 match kv with
                 | (k, v) => keyword_satisfied satisfies k v inst
                 end)
              keywords
  | _ => false
  end.

Definition known_type (name : pyval) : bool :=
  match name with
  | PStr ty => bool_decide (is_Some (type_checker ty))
  | _ => false
  end.

Definition hashable_name (name : pyval) : bool :=
  match name with
  | PList _ | PDict _ | PObject _ => false
  | _ => true
  end.

(** The keyword values the walk is described for, references apart: the
    shape the keyword's function expects, type names the checker knows, and
    sub-schemas of the same kind ([closed] is that property of them). *)
Definition keyword_closed (closed : pyval -> bool) (k : string) (v : pyval) : bool :=
  if String.eqb k "$ref" then false
  else if String.eqb k "type" then
    match v with
    | PStr _ => known_type v
    | PList names => forallb known_type names
    | _ => false
    end
  else if String.eqb k "properties" then
    match v with
    | PDict subschemas =>
        forallb (fun ps => match ps with (_, subschema) => closed subschema end) subschemas
    | _ => false
    end
  else if String.eqb k "required" then
    match v with
    | PList names => forallb hashable_name names
    | _ => false
    end
  else if String.eqb k "items" then
    match v with
    | PList subschemas => forallb closed subschemas
    | _ => closed v
    end
  else if String.eqb k "allOf" || String.eqb k "anyOf" || String.eqb k "oneOf" then
    match v with
    | PList subschemas => forallb closed subschemas
    | _ => false
    end
  else if String.eqb k "not" then closed v
  else negb (existsb (String.eqb k) unmodelled_keywords).

(** A schema without references whose keywords are all of that kind. *)
Fixpoint closed_schema (schema : pyval) : bool :=
  match schema with
  | PBool _ => true
  | PDict keywords =>
      forallb (fun kv =>
                 match kv with
                 | (k, v) => keyword_closed closed_schema k v
                 end)
              keywords
  | _ => false
  end.

(** The property of one level of the walk, for schemas nested less deeply
    than [bound]: it runs to its end, and yields nothing exactly when the
    instance satisfies the schema. *)
Definition good (descend : pyval -> pyval -> pyval -> errors) (bound : nat) : Prop :=
  forall scope schema inst,
    (height schema < bound)%nat ->
    closed_schema schema = true ->
    json_value inst = true ->
    agrees (descend scope schema inst) (satisfies schema inst).

End Satisfaction.

(** ** [validate] *)

Section Validate.

Variable joinpath : string -> string -> string.
Variable read_schema : string -> string -> result pyval.

(** The reference resolver [RefResolver(base_uri, referrer, store)] built at
    lines 114-118: from the store (the schema cache) and the referrer (the
    [schema_id] argument) to its [resolve] method. *)
Variable ref_resolver :
  gmap string pyval -> string -> pyval -> pyval -> result (pyval * pyval).

(** The [base_uri] of line 115, the first resolution scope. *)
Variable base_uri : string.

(** The interpreter's recursion limit. *)
Variable recursion_limit : nat.

(** Lines 120-126: the type checker of the validator class in use. *)
Definition validator_type_checker (array_types : list string) (allow_tensors : bool)
    : TypeChecker :=
  if allow_tensors
  then redefine "array" (_is_array_or_tensor array_types) draft6_type_checker
  else draft6_type_checker.

(** The errors [validator.iter_errors(spec)] generates for the validator
    built at line 128. *)
Definition spec_errors (cache : gmap string pyval) (array_types : list string)
    (spec : pyval) (schema_id : string) (schema : pyval) (allow_tensors : bool)
    : errors :=
  iter_errors (validator_type_checker array_types allow_tensors)
              (ref_resolver cache schema_id)
              recursion_limit (PStr base_uri) schema spec.

(** Lines 112-131.  [Validator.validate] raises the first error of the
    generator; only a [ValidationError] is caught and wrapped. *)
Definition validate (SCHEMA_CACHE : gmap string pyval) (array_types : list string)
    (spec : pyval) (schema_id : string) (version : option string)
    (allow_tensors : bool) : result pyval * gmap string pyval :=
  match load_schema joinpath read_schema SCHEMA_CACHE schema_id version with
  | (Raise e, cache) => (Raise e, cache)
  | (Return schema, cache) =>
      (match spec_errors cache array_types spec schema_id schema allow_tensors with
       | Stop => Return PNone
       | Yield err _ => Raise (InvalidSpecification err schema_id)
       | Throw e => Raise e
       end, cache)
  end.

End Validate.

(** ** [citation] *)

(** [str.strip] and [str.splitlines] are defined by classes of code points,
    so the text of the citation file is kept as the list of its code
    points. *)
Definition text : Type := list N.

(** [str.isspace] on one code point: the characters that [str.strip]
    removes. *)
Definition is_space (c : N) : bool :=
  ((9 <=? c) && (c <=? 13) || (28 <=? c) && (c <=? 32) || (c =? 133) || (c =? 160)
   || (c =? 5760) || (8192 <=? c) && (c <=? 8202) || (c =? 8232) || (c =? 8233)
   || (c =? 8239) || (c =? 8287) || (c =? 12288))%N.

(** The line boundaries of [str.splitlines]. *)
Definition is_linebreak (c : N) : bool :=
  ((10 <=? c) && (c <=? 13) || (28 <=? c) && (c <=? 30) || (c =? 133)
   || (c =? 8232) || (c =? 8233))%N.

(** [s.lstrip()], [s.rstrip()] and [s.strip()]. *)
Fixpoint lstrip (s : text) : text :=
  match s with
  | [] => []
  | c :: s' => if is_space c then lstrip s' else s
  end.

Definition rstrip (s : text) : text := rev (lstrip (rev s)).

Definition strip (s : text) : text := rstrip (lstrip s).

(** [s.splitlines()]: the lines without their boundaries.  A carriage
    return followed by a line feed is one boundary, and a boundary at the
    end of the text opens no further line. *)
Fixpoint splitlines (s : text) : list text :=
  match s with
  | [] => []
  | c :: s' =>
      if is_linebreak c then
        [] :: (if (c =? 13)%N
               then match s' with
                    | c' :: s'' => if (c' =? 10)%N then splitlines s'' else splitlines s'
                    | [] => splitlines s'
                    end
               else splitlines s')
      else match splitlines s' with
           | [] => [[c]]
           | line :: lines => (c :: line) :: lines
           end
  end.

Section Citation.

(** Lines 210-216 and the [fp.read()] of line 217: opening the packaged
    file [data/citation.bib] in text mode and reading it.  The file is not
    part of the sources. *)
Variable read_citation : result text.

(** Lines 194-221. *)
Definition citation (oneline : bool) : result text :=
  data ← strip <$> read_citation;
  Return (if oneline then concat (splitlines data) else data).

End Citation.

(** ** Notions used in the statements *)

(** The line the document holds for an option with a delimiter: the text
    before the first ['='], a colon and a space, the text after it. *)
Definition key_value_line (opt : string) : string :=
  match cut "=" opt with
  | Some (key, value) => key +:+ ": " +:+ value
  | None => opt
  end.

(** Two values are the same up to the insertion order of their
    dictionaries: lists agree element by element, and dictionaries (whose
    keys are distinct) agree at every key. *)
Inductive same_mapping : pyval -> pyval -> Prop :=
| same_refl v : same_mapping v v
| same_list xs ys :
    Forall2 same_mapping xs ys -> same_mapping (PList xs) (PList ys)
| same_dict d1 d2 :
    NoDup d1.*1 -> NoDup d2.*1 ->
    (forall k, option_Forall2 same_mapping (dict_get d1 k) (dict_get d2 k)) ->
    same_mapping (PDict d1) (PDict d2).

(** The value an instance holds at a path. *)
Fixpoint lookup_path (v : pyval) (p : list path_elem) : option pyval :=
  match p with
  | [] => Some v
  | Key name :: p' =>
      match v with
      | PDict members => x ← dict_get members name; lookup_path x p'
      | _ => None
      end
  | Index i :: p' =>
      match v with
      | PList items => x ← items !! i; lookup_path x p'
      | _ => None
      end
  end.

(** The errors a generator yields before it ends or raises. *)
Fixpoint yields (g : errors) (e : ValidationError) : Prop :=
  match g with
  | Yield e' rest => e = e' \/ yields rest e
  | Stop | Throw _ => False
  end.

(** Every error of the generator points at the value it reports, by its
    path from the instance [inst]. *)
Definition located (g : errors) (inst : pyval) : Prop :=
  forall e, yields g e -> lookup_path inst (path e) = Some (instance e).

(** [below g g']: [g'] is [g], except that where [g] raises
    [RecursionError] the generator [g'] may go on in any way. *)
Inductive below : errors -> errors -> Prop :=
| below_recursion g' : below (Throw RecursionError) g'
| below_stop : below Stop Stop
| below_yield e rest rest' : below rest rest' -> below (Yield e rest) (Yield e rest')
| below_throw x : below (Throw x) (Throw x).

(** The same for the outcome of a call. *)
Definition result_below {A} (r r' : result A) : Prop :=
  r = Raise RecursionError \/ r = r'.

(** A schema that requires its instance to be an object whose ["array"]
    member has type [array]. *)
Definition array_schema (id : string) : pyval :=
  PDict [("$id", PStr id);
         ("type", PStr "object");
         ("properties", PDict [("array", PDict [("type", PStr "array")])])].

(** The identifier a schema document declares, when it is a string. *)
Definition declared_id (schema : pyval) : option string :=
  match subscript schema "$id" with
  | Return (PStr id) => Some id
  | _ => None
  end.

Section Calls.

Variable joinpath : string -> string -> string.
Variable read_schema : string -> string -> result pyval.
Variable ref_resolver :
  gmap string pyval -> string -> pyval -> pyval -> result (pyval * pyval).
Variable base_uri : string.
Variable recursion_limit : nat.

(** [calls c c']: some sequence of [load_schema] and [validate] calls takes
    the cache from [c] to [c']. *)
Inductive calls : gmap string pyval -> gmap string pyval -> Prop :=
| calls_none c : calls c c
| calls_load_schema c c' schema_id version :
    calls c c' ->
    calls c (load_schema joinpath read_schema c' schema_id version).2
| calls_validate c c' array_types spec schema_id version allow_tensors :
    calls c c' ->
    calls c (validate joinpath read_schema ref_resolver base_uri recursion_limit
               c' array_types spec schema_id version allow_tensors).2.

(** The caches the module can be in: [SCHEMA_CACHE] starts empty (line 12)
    and is only changed by the two functions (the import of the module
    itself makes the first [load_schema] call, line 74). *)
Definition reachable (c : gmap string pyval) : Prop := calls ∅ c.

(** Modelled from the spec: the schema files under [schemas/] are not
    part of the sources, so the store is the parameter [read_schema], and
    what the specification says of its documents is stated here, in the two
    forms the cache relies on.  A declared identifier that is the key of a
    (version, name) request belongs to the document stored for that request
    (the identifier is composed from the base, the version and the file
    name); and no two stored documents share a declared identifier (the
    identifier is unique within the registry). *)
Definition declared_ids_locate : Prop :=
  forall version schema_id schema version' schema_id',
    read_schema version schema_id = Return schema ->
    declared_id schema = Some (SCHEMA_BASE +:+ joinpath version' schema_id') ->
    read_schema version' schema_id' = Return schema.

Definition declared_ids_unique : Prop :=
  forall version schema_id schema version' schema_id' schema',
    read_schema version schema_id = Return schema ->
    read_schema version' schema_id' = Return schema' ->
    declared_id schema = declared_id schema' ->
    is_Some (declared_id schema) ->
    schema = schema'.

(** Modelled from the spec: the layout in the words of the store's
    description.  A document declares the identifier made of the base, its
    version and its name, and the joined path decides which file is read.
    [layout_locates] and [layout_unique] derive the two forms above. *)
Definition declared_ids_follow_paths : Prop :=
  forall version schema_id schema,
    read_schema version schema_id = Return schema ->
    declared_id schema = Some (SCHEMA_BASE +:+ joinpath version schema_id).

Definition paths_decide_files : Prop :=
  forall version schema_id version' schema_id',
    joinpath version schema_id = joinpath version' schema_id' ->
    read_schema version schema_id = read_schema version' schema_id'.

(** Every cached document comes from the store and sits under the
    identifier it declares. *)
Definition cache_from_store (c : gmap string pyval) : Prop :=
  forall k schema,
    c !! k = Some schema ->
    declared_id schema = Some k /\
    exists version schema_id, read_schema version schema_id = Return schema.

End Calls.

(** ** Reference instances of the collaborators *)

(** *** SHA-256 (FIPS 180-4), the algorithm behind [hashlib.sha256] *)

Definition w32 (x : Z) : Z := x mod 2 ^ 32.
Definition rotr (n x : Z) : Z := Z.lor (Z.shiftr x n) (w32 (Z.shiftl x (32 - n))).
Definition Ch (x y z : Z) : Z :=
  Z.lxor (Z.land x y) (Z.land (Z.lxor x (2 ^ 32 - 1)) z).
Definition Maj (x y z : Z) : Z :=
  Z.lxor (Z.land x y) (Z.lxor (Z.land x z) (Z.land y z)).
Definition Sigma0 (x : Z) : Z := Z.lxor (rotr 2 x) (Z.lxor (rotr 13 x) (rotr 22 x)).
Definition Sigma1 (x : Z) : Z := Z.lxor (rotr 6 x) (Z.lxor (rotr 11 x) (rotr 25 x)).
Definition sigma0 (x : Z) : Z := Z.lxor (rotr 7 x) (Z.lxor (rotr 18 x) (Z.shiftr x 3)).
Definition sigma1 (x : Z) : Z := Z.lxor (rotr 17 x) (Z.lxor (rotr 19 x) (Z.shiftr x 10)).

(** The first sixty-four primes. *)
Definition is_prime (n : nat) : bool :=
  forallb (fun d => negb (Nat.eqb (n mod d) 0)) (seq 2 (n - 2)).
Definition first_primes : list Z := Z.of_nat <$> filter is_prime (seq 2 310).

(** The integer cube root of a number below 2^108. *)
Definition cube_root (n : Z) : Z :=
  fold_left (fun r i => let r' := r + 2 ^ Z.of_nat i in if r' ^ 3 <=? n then r' else r)
            (rev (seq 0 36)) 0.

(** The round constants and the initial hash value: the first 32 bits of
    the fractional parts of the cube roots, and of the square roots, of the
    first primes. *)
Definition sha256_K : list Z := (fun p => w32 (cube_root (p * 2 ^ 96))) <$> first_primes.
Definition sha256_H0 : list Z := (fun p => w32 (Z.sqrt (p * 2 ^ 64))) <$> take 8 first_primes.

(** The [n] low bytes of [x], most significant first, and back. *)
Fixpoint be_bytes (n : nat) (x : Z) : list Z :=
  match n with
  | O => []
  | S n' => (x / 256 ^ Z.of_nat n') mod 256 :: be_bytes n' x
  end.
Definition be_word (bs : list Z) : Z := fold_left (fun acc b => acc * 256 + b) bs 0.

Definition sha256_pad (msg : list Z) : list Z :=
  let len := Z.of_nat (length msg) in
  msg ++ [128] ++ repeat 0 (Z.to_nat ((55 - len) mod 64)) ++ be_bytes 8 (8 * len).

Fixpoint chunks {A} (fuel n : nat) (xs : list A) : list (list A) :=
  match fuel, xs with
  | O, _ | _, [] => []
  | S fuel', _ => take n xs :: chunks fuel' n (drop n xs)
  end.

(** The message schedule, most recent word first. *)
Fixpoint schedule (n : nat) (w : list Z) : list Z :=
  match n with
  | O => w
  | S n' =>
      schedule n'
        (w32 (sigma1 (nth 1 w 0) + nth 6 w 0 + sigma0 (nth 14 w 0) + nth 15 w 0) :: w)
  end.

Definition sha256_round (st : list Z) (kw : Z * Z) : list Z :=
  match st with
  | [a; b; c; d; e; f; g; h] =>
      let t1 := h + Sigma1 e + Ch e f g + kw.1 + kw.2 in
      let t2 := Sigma0 a + Maj a b c in
      [w32 (t1 + t2); a; b; c; w32 (d + t1); e; f; g]
  | _ => st
  end.

Definition sha256_compress (h block : list Z) : list Z :=
  let w := rev (schedule 48 (rev (be_word <$> chunks 16 4 block))) in
  zip_with (fun x y => w32 (x + y)) h (fold_left sha256_round (zip sha256_K w) h).

Definition hex_byte (b : Z) (rest : string) : string :=
  String (hex_digit (Z.to_N (b / 16))) (String (hex_digit (Z.to_N (b mod 16))) rest).

Definition bytes_of (s : string) : list Z :=
  (fun c => Z.of_N (N_of_ascii c)) <$> list_ascii_of_string s.

(** [hashlib.sha256(data).hexdigest()]. *)
Definition sha256_hexdigest (data : string) : string :=
  let padded := sha256_pad (bytes_of data) in
  let h := fold_left sha256_compress (chunks (length padded) 64 padded) sha256_H0 in
  fold_right hex_byte EmptyString (h ≫= be_bytes 4).

(** A [hashlib] in which only [sha256] is looked at. *)
Definition hashlib_sha256 (name : string) : option hashlib_attr :=
  if String.eqb name "sha256" then Some (hash_constructor sha256_hexdigest) else None.

(** *** [float.__repr__] on small integral floats *)

(** The integer a float holds, when it holds one. *)
Definition float_integer (f : spec_float) : option Z :=
  match f with
  | S754_zero _ => Some 0
  | S754_finite s m e =>
      if is_integer f then
        let v := if 0 <=? e then Z.pos m * 2 ^ e else Z.pos m / 2 ^ (- e) in
        Some (if s then - v else v)
      else None
  | S754_infinity _ | S754_nan => None
  end.

Definition float_negative (f : spec_float) : bool :=
  match f with
  | S754_zero s | S754_infinity s | S754_finite s _ _ => s
  | S754_nan => false
  end.

(** [float.__repr__] writes a float that holds an integer of magnitude
    below 10^16 as the digits of the integer followed by [.0].  The other
    floats take a digit generation algorithm; this reference gives the empty
    string for them, and nothing below evaluates it there. *)
Definition float_repr_integral (f : spec_float) : string :=
  match float_integer f with
  | Some z =>
      if Z.abs z <? 10 ^ 16
      then (if float_negative f then "-" else "") +:+ int_repr (Z.abs z) +:+ ".0"
      else EmptyString
  | None => EmptyString
  end.

(** The floats 1.0, 2.0 and 3.0. *)
Definition float_1 : spec_float := S754_finite false 4503599627370496 (-52).
Definition float_2 : spec_float := S754_finite false 4503599627370496 (-51).
Definition float_3 : spec_float := S754_finite false 6755399441055744 (-51).

(** *** A small schema store *)

(** Joining plain relative components, as pathlib does for them. *)
Definition plain_joinpath (version schema_id : string) : string :=
  version +:+ "/" +:+ schema_id.

Definition array_id : string := SCHEMA_BASE +:+ "1.0.0/array.json".

(** A store with the single schema [1.0.0/array.json]. *)
Definition array_store (version schema_id : string) : result pyval :=
  if String.eqb version "1.0.0" && String.eqb schema_id "array.json"
  then Return (array_schema array_id)
  else Raise FileNotFoundError.

(** The cache once that schema has been loaded. *)
Definition array_cache : gmap string pyval := {[ array_id := array_schema array_id ]}.

(** A resolver that finds nothing. *)
Definition no_resolver (store : gmap string pyval) (referrer : string)
    (scope ref : pyval) : result (pyval * pyval) :=
  Raise RefResolutionError.

(** The [base_uri] of an installed package and the default recursion
    limit of the interpreter. *)
Definition example_base_uri : string := "file:///site-packages/pyhf/schemas/".
Definition example_recursion_limit : nat := 1000.

(** The object of the docstring of [digest], in two insertion orders. *)
Definition docstring_obj : pyval :=
  PDict [("a", PFloat float_2); ("b", PFloat float_3); ("c", PFloat float_1)].
Definition docstring_obj_reordered : pyval :=
  PDict [("c", PFloat float_1); ("a", PFloat float_2); ("b", PFloat float_3)].

(** A store whose documents declare an identifier that is not composed
    from their version and name. *)
Definition misplaced_store (version schema_id : string) : result pyval :=
  Return (array_schema "urn:elsewhere").

(** A store that has lost its files. *)
Definition empty_store (version schema_id : string) : result pyval :=
  Raise FileNotFoundError.

(** A resolver that finds a reference in the store when the reference is
    the full identifier of a cached schema. *)
Definition store_resolver (store : gmap string pyval) (referrer : string)
    (scope ref : pyval) : result (pyval * pyval) :=
  match ref with
  | PStr url =>
      match store !! url with
      | Some schema => Return (PStr url, schema)
      | None => Raise RefResolutionError
      end
  | _ => Raise RefResolutionError
  end.

(** The code points of a text written in ASCII. *)
Definition text_of_string (s : string) : text := N_of_ascii <$> list_ascii_of_string s.

(** A parser that returns the document it is given. *)
Definition echo_document (document : string) : result pyval := Return (PStr document).

(* ===================================================================== *)
(** * Part II: properties                                                  *)
(* ===================================================================== *)

(** ** Option strings *)

Section OptionParsingProperties.

Variable yaml_load_document : string -> result pyval.

Lemma cut_contains c s : contains c s = true <-> is_Some (cut c s).
Proof.
  induction s as [|a s IH]; simpl.
  - split; [discriminate | intros [? ?]; discriminate].
  - destruct (Ascii.eqb a c); simpl; [split; eauto|].
    rewrite IH. destruct (cut c s) as [[before after]|]; split; eauto;
      intros [? ?]; discriminate.
Qed.

Lemma option_line_delimited opt :
  contains "=" opt = true -> option_line opt = Return (key_value_line opt).
Proof.
  intros [[key value] Hcut]%cut_contains.
  unfold option_line, key_value_line, split1. by rewrite Hcut.
Qed.

Lemma option_line_undelimited opt :
  contains "=" opt = false -> option_line opt = Raise IndexError.
Proof.
  intros H. unfold option_line, split1.
  destruct (cut "=" opt) as [[key value]|] eqn:Hcut; [|done].
  assert (contains "=" opt = true) by (apply cut_contains; eauto). congruence.
Qed.

Lemma option_line_cases opt :
  option_line opt = Raise IndexError \/ exists line, option_line opt = Return line.
Proof.
  destruct (contains "=" opt) eqn:H.
  - right. eauto using option_line_delimited.
  - left. by apply option_line_undelimited.
Qed.

Lemma sequence_option_lines_raise opts :
  Exists (fun opt => contains "=" opt = false) opts ->
  sequence (option_line <$> opts) = Raise IndexError.
Proof.
  induction 1 as [opt opts H|opt opts H IH]; csimpl.
  - by rewrite (option_line_undelimited _ H).
  - destruct (option_line_cases opt) as [->| [line ->]]; csimpl; [done|].
    by rewrite IH.
Qed.

Lemma sequence_option_lines_return opts :
  Forall (fun opt => contains "=" opt = true) opts ->
  sequence (option_line <$> opts) = Return (key_value_line <$> opts).
Proof.
  induction 1 as [|opt opts H _ IH]; csimpl; [done|].
  by rewrite (option_line_delimited _ H), IH.
Qed.

(** C10: on the empty list the function returns [None], the value of
    [yaml.safe_load] on an empty document, and not a mapping (not even the
    empty one). *)
Theorem options_from_eqdelimstring_nil :
  options_from_eqdelimstring yaml_load_document [] = Return PNone /\
  forall items,
    options_from_eqdelimstring yaml_load_document [] <> Return (PDict items).
Proof. split; [reflexivity | intros items; discriminate]. Qed.

(** C8, as amended: when some entry has no ['='] the function raises
    [IndexError] (and never reaches the YAML parser); when every entry has
    one, no [IndexError] arises and the outcome is that of [yaml.safe_load]
    on the document made of one [key: value] line per entry. *)
Theorem options_from_eqdelimstring_delimiters opts :
  (Exists (fun opt => contains "=" opt = false) opts ->
   options_from_eqdelimstring yaml_load_document opts = Raise IndexError) /\
  (Forall (fun opt => contains "=" opt = true) opts ->
   options_from_eqdelimstring yaml_load_document opts =
   safe_load yaml_load_document
     (join (String newline EmptyString) (key_value_line <$> opts))).
Proof.
  unfold options_from_eqdelimstring. split; intros H.
  - by rewrite sequence_option_lines_raise.
  - by rewrite sequence_option_lines_return.
Qed.

End OptionParsingProperties.

(** C8, the claim as stated fails: every entry of the empty list has a
    delimiter, and the result is [None], not a mapping, whatever the YAML
    parser does. *)
Lemma options_all_delimited_no_mapping :
  Forall (fun opt => contains "=" opt = true) [] /\
  (forall yaml_load_document items,
     options_from_eqdelimstring yaml_load_document [] <> Return (PDict items)).
Proof. split; [constructor | intros yaml items; discriminate]. Qed.

(** The amended C8 at two concrete lists, with a parser that echoes the
    document it is given. *)
Lemma options_from_eqdelimstring_delimiters_witness :
  options_from_eqdelimstring (fun doc => Return (PStr doc)) ["a=1"; "b"]
    = Raise IndexError /\
  options_from_eqdelimstring (fun doc => Return (PStr doc)) ["a=1"; "b=x=y"]
    = Return (PStr (join (String newline EmptyString) ["a: 1"; "b: x=y"])).
Proof.
  split.
  - apply (proj1 (options_from_eqdelimstring_delimiters
                    (fun doc => Return (PStr doc)) ["a=1"; "b"])).
    right. left. reflexivity.
  - apply (proj2 (options_from_eqdelimstring_delimiters
                    (fun doc => Return (PStr doc)) ["a=1"; "b=x=y"])).
    repeat constructor.
Defined.

(** ** Serialisation and [digest] *)

(** Induction on values, with the members of lists and dictionaries. *)
Lemma pyval_ind_nested (P : pyval -> Prop) :
  P PNone -> (forall b, P (PBool b)) -> (forall z, P (PInt z)) ->
  (forall f, P (PFloat f)) -> (forall s, P (PStr s)) ->
  (forall xs, Forall P xs -> P (PList xs)) ->
  (forall d, Forall (fun kv => P kv.2) d -> P (PDict d)) ->
  (forall cls, P (PObject cls)) ->
  forall v, P v.
Proof.
  intros HNone HBool HInt HFloat HStr HList HDict HObject.
  fix IH 1.
  intros [|b|z|f|s|xs|d|cls];
    [apply HNone | apply HBool | apply HInt | apply HFloat | apply HStr
    | apply HList | apply HDict | apply HObject].
  - induction xs as [|x xs IHxs]; constructor; [apply IH | exact IHxs].
  - induction d as [|[k v] d IHd]; constructor; [apply IH | exact IHd].
Qed.

Lemma dict_get_elem_of d k v : dict_get d k = Some v -> (k, v) ∈ d.
Proof.
  induction d as [|[k' v'] d IH]; simpl; [discriminate|].
  destruct (String.eqb_spec k' k) as [->|Hne].
  - intros [= ->]. left.
  - intros H. right. auto.
Qed.

Lemma elem_of_dict_get d k v : NoDup d.*1 -> (k, v) ∈ d -> dict_get d k = Some v.
Proof.
  induction d as [|[k' v'] d IH]; simpl; [by intros _ ?%elem_of_nil|].
  intros [Hk' Hd]%NoDup_cons [[= -> ->]|Hin]%elem_of_cons.
  - by rewrite String.eqb_refl.
  - destruct (String.eqb_spec k' k) as [->|Hne]; [|auto].
    destruct Hk'. apply list_elem_of_fmap. by exists (k, v).
Qed.

Lemma item_le_total {A} : Total (@item_le A).
Proof. intros a b. unfold item_le. apply (total String.le). Qed.

Lemma item_le_trans {A} : Transitive (@item_le A).
Proof. intros a b c. unfold item_le. apply (transitivity (R:=String.le)). Qed.

(** Sorting by key does not depend on the order of the items when the keys
    are distinct. *)
Lemma sorted_items_permutation {A} (l1 l2 : list (string * A)) :
  NoDup l1.*1 -> l1 ≡ₚ l2 -> sorted_items l1 = sorted_items l2.
Proof.
  intros Hnodup Hperm. unfold sorted_items.
  apply (@Sorted_unique_strong _ item_le item_le_trans).
  - intros [k1 x1] [k2 x2] H1 H2 Hle Hge.
    rewrite merge_sort_Permutation in H1, H2. rewrite <- Hperm in H2.
    assert (k1 = k2) as -> by (apply (anti_symm String.le); assumption).
    f_equal. clear Hle Hge Hperm.
    induction l1 as [|[k x] l1 IH]; [by apply elem_of_nil in H1|].
    simpl in Hnodup. apply NoDup_cons in Hnodup as [Hk Hl1].
    apply elem_of_cons in H1 as [H1|H1], H2 as [H2|H2]; simplify_eq; auto.
    + destruct Hk. apply list_elem_of_fmap. by exists (k, x2).
    + destruct Hk. apply list_elem_of_fmap. by exists (k, x1).
  - apply (@Sorted_merge_sort _ item_le _ item_le_total).
  - apply (@Sorted_merge_sort _ item_le _ item_le_total).
  - by rewrite !merge_sort_Permutation.
Qed.

Section DigestProperties.

Variable float_repr : spec_float -> string.
Variable hashlib : string -> option hashlib_attr.

Lemma dumps_dict items :
  dumps float_repr (PDict items) =
  parts ← sequence (snd <$> sorted_items (dict_members float_repr items));
  Return ("{" +:+ join ", " parts +:+ "}").
Proof.
  unfold dict_members. cbn [dumps]. do 4 f_equal.
  induction items as [|[k v] items IH]; [done|]. cbn [map]. by rewrite IH.
Qed.

(** The encoding only depends on a value up to the order of its keys. *)
Lemma dumps_same_mapping a b :
  same_mapping a b -> dumps float_repr a = dumps float_repr b.
Proof.
  revert b. induction a as [|?|?|?|?|xs IH|d1 IH|?] using pyval_ind_nested;
    intros c Hsame; inversion Hsame as [|xs' ys Hall|d1' d2 Hnd1 Hnd2 Hget]; subst;
    try reflexivity.
  - (* lists *)
    simpl. do 2 f_equal.
    induction Hall as [|x y xs ys Hxy Hall IHall]; [done|].
    apply Forall_cons in IH as [IHx IHxs]. simpl. f_equal; auto.
    apply IHall; [assumption | by constructor].
  - (* dictionaries *)
    rewrite !dumps_dict. do 3 f_equal.
    assert (Hmember : forall kx,
               kx ∈ dict_members float_repr d1 <-> kx ∈ dict_members float_repr d2).
    { intros [k x]. unfold dict_members. rewrite !list_elem_of_fmap.
      rewrite Forall_forall in IH.
      split; intros ([k' v] & [= -> ->] & Hin); simpl in *.
      - pose proof (Hget k') as Hk.
        rewrite (elem_of_dict_get _ _ _ Hnd1 Hin) in Hk.
        inversion Hk as [v1 v2 Hv Heq1 Heq2|]; subst.
        exists (k', v2). simpl. split.
        + pose proof (IH _ Hin v2 Hv) as E. simpl in E. by rewrite E.
        + by apply dict_get_elem_of.
      - pose proof (Hget k') as Hk.
        rewrite (elem_of_dict_get _ _ _ Hnd2 Hin) in Hk.
        inversion Hk as [v1 v2 Hv Heq1 Heq2|]; subst.
        assert (Hin1 : (k', v1) ∈ d1) by by apply dict_get_elem_of.
        exists (k', v1). simpl. split.
        + pose proof (IH _ Hin1 v Hv) as E. simpl in E. by rewrite E.
        + assumption. }
    assert (Hkeys : forall d, (dict_members float_repr d).*1 = d.*1).
    { intros d. unfold dict_members. rewrite <- list_fmap_compose.
      by apply list_fmap_ext. }
    apply sorted_items_permutation.
    + by rewrite Hkeys.
    + apply NoDup_Permutation; [| |exact Hmember].
      * apply (NoDup_fmap_1 fst). by rewrite Hkeys.
      * apply (NoDup_fmap_1 fst). by rewrite Hkeys.
Qed.

(** C6: two values that are equal as mappings and differ only in the order
    in which their keys were inserted have the same digest, for [sha256] as
    for every other algorithm. *)
Theorem digest_insertion_order a b algorithm :
  same_mapping a b ->
  digest float_repr hashlib a algorithm = digest float_repr hashlib b algorithm.
Proof.
  intros Hsame. unfold digest. by rewrite (dumps_same_mapping a b Hsame).
Qed.

(** The two documented failures of [digest]. *)
Lemma digest_not_serializable obj algorithm :
  dumps float_repr obj = Raise TypeError ->
  digest float_repr hashlib obj algorithm =
  Raise (ValueError
    "The supplied object is not JSON-serializable for calculating a hash.").
Proof. intros H. unfold digest. by rewrite H. Qed.

Lemma digest_no_attribute obj algorithm stringified :
  dumps float_repr obj = Return stringified ->
  hashlib algorithm = None ->
  digest float_repr hashlib obj algorithm =
  Raise (ValueError
    (algorithm +:+ " is not an algorithm provided by Python's hashlib library.")).
Proof. intros H1 H2. unfold digest. by rewrite H1, H2. Qed.

Lemma digest_hash_constructor obj algorithm stringified hexdigest :
  dumps float_repr obj = Return stringified ->
  hashlib algorithm = Some (hash_constructor hexdigest) ->
  digest float_repr hashlib obj algorithm = Return (hexdigest stringified).
Proof. intros H1 H2. unfold digest. by rewrite H1, H2. Qed.

End DigestProperties.

(** ** The walk and the meaning of the keywords *)

Lemma agrees_chain g1 g2 b1 b2 :
  agrees g1 b1 -> agrees g2 b2 -> agrees (chain g1 g2) (b1 && b2).
Proof.
  intros [Hf1 <-] [Hf2 <-]. split.
  - induction g1 as [|e g1 IH|x]; simpl in *; auto; discriminate.
  - destruct g1; simpl in *; auto; discriminate.
Qed.

Lemma agrees_each f g b : agrees g b -> agrees (each f g) b.
Proof.
  intros [Hf <-]. split.
  - induction g; simpl in *; auto.
  - by destruct g.
Qed.

Lemma agrees_chain_all {A} (f : A -> errors) (p : A -> bool) xs :
  (forall x, x ∈ xs -> agrees (f x) (p x)) ->
  agrees (chain_all (map f xs)) (forallb p xs).
Proof.
  induction xs as [|x xs IH]; intros H; [by split|].
  cbn [map chain_all foldr forallb].
  apply agrees_chain; [apply H; left | apply IH; intros y Hy; apply H; by right].
Qed.

Lemma agrees_collect g b :
  agrees g b -> exists es, collect g = Return es /\ (es = [] <-> b = true).
Proof.
  intros [Hf <-]. induction g as [|e g IH|x]; simpl in *; [by eexists| |discriminate].
  destruct (IH Hf) as (es & -> & _). exists (e :: es). by split.
Qed.

Lemma agrees_no_error g b : agrees g b -> no_error g = Return b.
Proof. intros [Hf <-]. destruct g; simpl in *; [done..|discriminate]. Qed.

Lemma height_elem x xs : x ∈ xs -> (height x < height (PList xs))%nat.
Proof.
  cbn [height]. induction 1 as [x xs|x y xs _ IH]; cbn [map foldr]; lia.
Qed.

Lemma height_member k x members :
  (k, x) ∈ members -> (height x < height (PDict members))%nat.
Proof.
  cbn [height]. induction members as [|[k' y] members IH]; intros H.
  - by apply elem_of_nil in H.
  - apply elem_of_cons in H as [[= -> ->]|H]; cbn [map foldr]; [lia|].
    specialize (IH H). lia.
Qed.

Lemma json_value_member k x members :
  json_value (PDict members) = true -> dict_get members k = Some x ->
  json_value x = true.
Proof.
  cbn [json_value]. rewrite forallb_forall. intros H Hx%dict_get_elem_of.
  apply (H (k, x)). by apply list_elem_of_In.
Qed.

Lemma forallb_elem_of {A} (p : A -> bool) xs x :
  forallb p xs = true -> x ∈ xs -> p x = true.
Proof. rewrite forallb_forall. intros H Hx. apply H. by apply list_elem_of_In. Qed.

Section WalkMeaning.

Variable array_types : list string.
Variable allow_tensors : bool.
Variable resolve : pyval -> pyval -> result (pyval * pyval).

Local Abbreviation tc := (validator_type_checker array_types allow_tensors).
Local Abbreviation sat := (satisfies tc).
Local Abbreviation closed := (closed_schema tc).
Local Abbreviation good := (good tc).

Lemma tc_object y :
  is_type tc y "object" = Return (match y with PDict _ => true | _ => false end).
Proof. unfold validator_type_checker. by destruct allow_tensors. Qed.

Lemma tc_array_list xs : is_type tc (PList xs) "array" = Return true.
Proof. unfold validator_type_checker. by destruct allow_tensors. Qed.

Lemma tc_array_other y :
  match y with PList _ | PObject _ => False | _ => True end ->
  is_type tc y "array" = Return false.
Proof. unfold validator_type_checker. by destruct allow_tensors, y. Qed.

Lemma is_type_known inst ty :
  is_Some (tc ty) -> is_type tc inst ty = Return (has_type tc inst ty).
Proof. intros [check H]. unfold is_type, has_type. by rewrite H. Qed.

Lemma any_type_known inst names :
  forallb (known_type tc) names = true ->
  any_type tc inst names = Return (existsb (has_named_type tc inst) names).
Proof.
  induction names as [|name names IH]; [done|]. cbn [forallb existsb any_type].
  intros [Hname Hnames]%andb_prop.
  destruct name as [| | | |ty| | |]; try discriminate. cbn [has_named_type].
  apply bool_decide_eq_true in Hname. rewrite (is_type_known _ _ Hname). csimpl.
  destruct (has_type tc inst ty); [done|]. by apply IH.
Qed.

Section Level.

Variable descend : pyval -> pyval -> pyval -> errors.
Variable bound : nat.
Hypothesis Hgood : good descend bound.

Lemma after_first_valid_good scope inst subschemas :
  Forall (fun s => (height s < bound)%nat /\ closed s = true) subschemas ->
  json_value inst = true ->
  exists r,
    after_first_valid descend scope inst subschemas = Return r /\
    match r with
    | None => List.filter (fun s => sat s inst) subschemas = []
    | Some rest =>
        Forall (fun s => (height s < bound)%nat /\ closed s = true) rest /\
        length (List.filter (fun s => sat s inst) subschemas)
        = S (length (List.filter (fun s => sat s inst) rest))
    end.
Proof.
  intros Hall Hjson. induction Hall as [|s subschemas [Hh Hc] Hall IH].
  { by exists None. }
  cbn [after_first_valid List.filter].
  destruct (Hgood scope s inst Hh Hc Hjson) as [Hf Hs].
  destruct (agrees_collect _ _ (conj Hf Hs)) as (es & -> & Hes). csimpl.
  destruct es as [|e es].
  - exists (Some subschemas). split; [done|].
    rewrite (proj1 Hes eq_refl). cbn. split; [done|]. done.
  - destruct (sat s inst) eqn:Hsat; [discriminate (proj2 Hes eq_refl)|].
    exact IH.
Qed.

Lemma more_valid_good scope inst subschemas :
  Forall (fun s => (height s < bound)%nat /\ closed s = true) subschemas ->
  json_value inst = true ->
  more_valid descend scope inst subschemas
  = Return (List.filter (fun s => sat s inst) subschemas).
Proof.
  intros Hall Hjson. induction Hall as [|s subschemas [Hh Hc] Hall IH]; [done|].
  cbn [more_valid List.filter]. unfold is_valid.
  rewrite (agrees_no_error _ _ (Hgood scope s inst Hh Hc Hjson)). csimpl.
  rewrite IH. csimpl. by destruct (sat s inst).
Qed.

Lemma filter_nil_existsb {A} (p : A -> bool) xs :
  List.filter p xs = [] -> existsb p xs = false.
Proof.
  induction xs as [|x xs IH]; [done|]. cbn [List.filter existsb].
  destruct (p x); [discriminate|]. exact IH.
Qed.

Lemma filter_cons_existsb {A} (p : A -> bool) xs n :
  length (List.filter p xs) = S n -> existsb p xs = true.
Proof.
  induction xs as [|x xs IH]; [discriminate|]. cbn [List.filter existsb].
  destruct (p x); [done|]. exact IH.
Qed.

Lemma required_good v inst members name :
  hashable_name name = true ->
  agrees
    match name with
    | PStr property =>
        match dict_get members property with
        | Some _ => Stop
        | None => Yield (violation "required" v inst) Stop
        end
    | PList _ | PDict _ => Throw TypeError
    | _ => Yield (violation "required" v inst) Stop
    end
    (has_member members name).
Proof.
  destruct name as [| | | |property| | |]; try done. intros _. cbn [has_member].
  by destruct (dict_get members property) eqn:H; split.
Qed.

Lemma items_tuple_good scope start elements subschemas :
  Forall (fun s => (height s < bound)%nat /\ closed s = true) subschemas ->
  forallb json_value elements = true ->
  agrees
    (chain_all
       (map (fun c =>
               match c with
               | ((index, item), subschema) =>
                   each (fun e => schema_path_appendleft (Index index)
                                    (path_appendleft (Index index) e))
                        (descend scope subschema item)
               end)
            (zip (zip (seq start (length elements)) elements) subschemas)))
    (all2 sat subschemas elements).
Proof.
  intros Hall. revert start elements.
  induction Hall as [|s subschemas [Hh Hc] Hall IH]; intros start elements Hjson.
  { destruct elements; by split. }
  destruct elements as [|item elements]; [by split|].
  cbn [forallb] in Hjson. apply andb_prop in Hjson as [Hitem Helements].
  cbn [length seq zip zip_with map chain_all foldr all2].
  apply agrees_chain; [by apply agrees_each, Hgood|].
  by apply IH.
Qed.

Lemma items_single_good scope start elements subschema :
  (height subschema < bound)%nat -> closed subschema = true ->
  forallb json_value elements = true ->
  agrees
    (chain_all
       (map (fun c =>
               match c with
               | (index, item) =>
                   each (path_appendleft (Index index)) (descend scope subschema item)
               end)
            (zip (seq start (length elements)) elements)))
    (forallb (sat subschema) elements).
Proof.
  intros Hh Hc. revert start.
  induction elements as [|item elements IH]; intros start Hjson; [by split|].
  cbn [forallb] in Hjson. apply andb_prop in Hjson as [Hitem Helements].
  cbn [length seq zip zip_with map chain_all foldr forallb].
  apply agrees_chain; [by apply agrees_each, Hgood|].
  by apply IH.
Qed.

Lemma allOf_good scope start inst subschemas :
  Forall (fun s => (height s < bound)%nat /\ closed s = true) subschemas ->
  json_value inst = true ->
  agrees
    (chain_all
       (map (fun c =>
               match c with
               | (index, subschema) =>
                   each (schema_path_appendleft (Index index))
                        (descend scope subschema inst)
               end)
            (zip (seq start (length subschemas)) subschemas)))
    (forallb (fun subschema => sat subschema inst) subschemas).
Proof.
  intros Hall Hjson. revert start.
  induction Hall as [|s subschemas [Hh Hc] Hall IH]; intros start; [by split|].
  cbn [length seq zip zip_with map chain_all foldr forallb].
  apply agrees_chain; [by apply agrees_each, Hgood|]. apply IH.
Qed.

Lemma subschemas_bounded subschemas :
  (height (PList subschemas) < bound)%nat ->
  forallb closed subschemas = true ->
  Forall (fun s => (height s < bound)%nat /\ closed s = true) subschemas.
Proof.
  intros Hh Hc. apply Forall_forall. intros s Hs. split.
  - pose proof (height_elem _ _ Hs). lia.
  - by eapply forallb_elem_of.
Qed.

(** Every keyword function does what the keyword means. *)
Lemma run_keyword_good scope k v inst :
  (height v < bound)%nat ->
  keyword_closed tc closed k v = true ->
  json_value inst = true ->
  agrees (run_keyword tc resolve descend scope k v inst)
         (keyword_satisfied tc sat k v inst).
Proof.
  intros Hh Hclosed Hjson.
  unfold run_keyword, keyword_satisfied. unfold keyword_closed in Hclosed.
  destruct (String.eqb k "$ref"); [discriminate|]. apply agrees_each.
  destruct (String.eqb k "type").
  { (* type *)
    unfold kw_type.
    destruct v as [| | | |ty|names| |]; try discriminate.
    - cbn [mbind result_bind].
      rewrite (any_type_known inst [PStr ty]) by (by cbn [forallb]; rewrite andb_true_r).
      cbn [existsb has_named_type]. rewrite orb_false_r.
      by destruct (has_type tc inst ty).
    - cbn [mbind result_bind]. rewrite (any_type_known inst names Hclosed).
      by destruct (existsb (has_named_type tc inst) names). }
  destruct (String.eqb k "properties").
  { (* properties *)
    destruct v as [| | | | | |subschemas|]; try discriminate.
    unfold kw_properties, when_type. rewrite tc_object.
    destruct inst as [| | | | | |members|]; try by split.
    apply agrees_chain_all. intros [property subschema] Hin.
    destruct (dict_get members property) as [value|] eqn:Hvalue; [|by split].
    apply agrees_each, Hgood.
    - pose proof (height_member _ _ _ Hin). lia.
    - by apply (forallb_elem_of _ _ _ Hclosed Hin).
    - by eapply json_value_member. }
  destruct (String.eqb k "required").
  { (* required *)
    destruct v as [| | | | |names| |]; try discriminate.
    unfold kw_required, when_type. rewrite tc_object.
    destruct inst as [| | | | | |members|]; try by split.
    apply agrees_chain_all. intros name Hin.
    apply required_good. by apply (forallb_elem_of _ _ _ Hclosed Hin). }
  destruct (String.eqb k "items").
  { (* items *)
    unfold kw_items, when_type.
    destruct inst as [| | | | |elements| |]; try discriminate;
      try (by rewrite tc_array_other; [split|]).
    rewrite tc_array_list. cbn [json_value] in Hjson.
    destruct v as [| | | | |subschemas| |]; try discriminate.
    - rewrite tc_array_other by done. by apply items_single_good.
    - rewrite tc_array_list.
      apply items_tuple_good; [by apply subschemas_bounded|done].
    - rewrite tc_array_other by done. by apply items_single_good. }
  destruct (String.eqb k "allOf").
  { (* allOf *)
    destruct v as [| | | | |subschemas| |]; try discriminate.
    unfold kw_allOf. apply allOf_good; [by apply subschemas_bounded|done]. }
  destruct (String.eqb k "anyOf").
  { (* anyOf *)
    destruct v as [| | | | |subschemas| |]; try discriminate.
    unfold kw_anyOf.
    destruct (after_first_valid_good scope inst subschemas) as (r & -> & Hr);
      [by apply subschemas_bounded|done|].
    destruct r as [rest|].
    - destruct Hr as [_ Hlen]. by rewrite (filter_cons_existsb _ _ _ Hlen).
    - by rewrite (filter_nil_existsb _ _ Hr). }
  destruct (String.eqb k "oneOf").
  { (* oneOf *)
    destruct v as [| | | | |subschemas| |]; try discriminate.
    unfold kw_oneOf.
    destruct (after_first_valid_good scope inst subschemas) as (r & -> & Hr);
      [by apply subschemas_bounded|done|].
    destruct r as [rest|].
    - destruct Hr as [Hrest Hlen]. rewrite (more_valid_good scope inst rest Hrest Hjson).
      rewrite Hlen. by destruct (List.filter _ rest).
    - by rewrite Hr. }
  destruct (String.eqb k "not").
  { (* not *)
    unfold kw_not, is_valid.
    rewrite (agrees_no_error _ _ (Hgood scope v inst Hh Hclosed Hjson)).
    by destruct (sat v inst). }
  apply negb_true_iff in Hclosed. rewrite Hclosed. by split.
Qed.

End Level.

Lemma closed_no_ref keywords :
  closed (PDict keywords) = true -> dict_get keywords "$ref" = None.
Proof.
  cbn [closed_schema]. induction keywords as [|[k v] keywords IH]; [done|].
  cbn [forallb dict_get]. intros [Hk Hkeywords]%andb_prop.
  unfold keyword_closed in Hk.
  destruct (String.eqb k "$ref"); [discriminate|]. by apply IH.
Qed.

(** The walk of the validator computes satisfaction: on a schema without
    references it runs to its end, and it yields no error exactly when the
    instance satisfies the schema. *)
Lemma iter_errors_good depth : good (iter_errors tc resolve depth) depth.
Proof.
  induction depth as [|d IH]; intros scope schema inst Hh Hc Hjson; [lia|].
  destruct schema as [|b| | | | |keywords|]; try discriminate.
  - by destruct b.
  - cbn [iter_errors satisfies]. rewrite (closed_no_ref _ Hc).
    apply agrees_chain_all. intros [k v] Hin.
    apply (run_keyword_good _ d IH).
    + pose proof (height_member _ _ _ Hin). lia.
    + cbn [closed_schema] in Hc. by apply (forallb_elem_of _ _ _ Hc Hin).
    + done.
Qed.

End WalkMeaning.

(** ** The schema cache *)

Section CacheProperties.

Variable joinpath : string -> string -> string.
Variable read_schema : string -> string -> result pyval.
Variable ref_resolver :
  gmap string pyval -> string -> pyval -> pyval -> result (pyval * pyval).
Variable base_uri : string.
Variable recursion_limit : nat.

Local Abbreviation load_schema := (load_schema joinpath read_schema).
Local Abbreviation cache_key := (cache_key joinpath).
Local Abbreviation validate :=
  (validate joinpath read_schema ref_resolver base_uri recursion_limit).
Local Abbreviation calls :=
  (calls joinpath read_schema ref_resolver base_uri recursion_limit).
Local Abbreviation reachable :=
  (reachable joinpath read_schema ref_resolver base_uri recursion_limit).
Local Abbreviation cache_from_store := (cache_from_store read_schema).

(** The described layout gives the two properties the cache relies on. *)
Lemma layout_locates :
  declared_ids_follow_paths joinpath read_schema ->
  paths_decide_files joinpath read_schema ->
  declared_ids_locate joinpath read_schema.
Proof.
  intros Hfollow Hpaths v n schema v' n' Hread Hid.
  rewrite (Hfollow _ _ _ Hread) in Hid. apply (inj Some) in Hid.
  apply (inj (String.append SCHEMA_BASE)) in Hid.
  by rewrite <- (Hpaths _ _ _ _ Hid).
Qed.

Lemma layout_unique :
  declared_ids_follow_paths joinpath read_schema ->
  paths_decide_files joinpath read_schema ->
  declared_ids_unique read_schema.
Proof.
  intros Hfollow Hpaths v n schema v' n' schema' Hread Hread' Hid _.
  rewrite (Hfollow _ _ _ Hread), (Hfollow _ _ _ Hread') in Hid.
  apply (inj Some) in Hid. apply (inj (String.append SCHEMA_BASE)) in Hid.
  rewrite (Hpaths _ _ _ _ Hid) in Hread. congruence.
Qed.

Lemma load_schema_hit (c : gmap string pyval) schema_id version schema :
  c !! cache_key version schema_id = Some schema ->
  load_schema c schema_id version = (Return schema, c).
Proof. intros H. unfold load_schema. by rewrite H. Qed.

Lemma load_schema_miss (c : gmap string pyval) schema_id version schema id :
  c !! cache_key version schema_id = None ->
  read_schema (version_or_default version) schema_id = Return schema ->
  declared_id schema = Some id ->
  load_schema c schema_id version = (Return schema, <[id := schema]> c).
Proof.
  intros Hmiss Hread Hid. unfold load_schema. rewrite Hmiss, Hread.
  unfold declared_id in Hid.
  destruct (subscript schema "$id") as [[]|]; simplify_eq.
  by rewrite lookup_insert_eq.
Qed.

(** What a call can do to the cache: nothing, or enter a document of the
    store under the identifier it declares. *)
Lemma load_schema_cache (c : gmap string pyval) schema_id version :
  (load_schema c schema_id version).2 = c \/
  exists schema id,
    read_schema (version_or_default version) schema_id = Return schema /\
    declared_id schema = Some id /\
    c !! cache_key version schema_id = None /\
    load_schema c schema_id version = (Return schema, <[id := schema]> c).
Proof.
  unfold load_schema.
  destruct (c !! cache_key version schema_id) eqn:Hkey; [by left|].
  destruct (read_schema _ schema_id) as [schema|] eqn:Hread; [|by left].
  destruct (subscript schema "$id") as [[| | | |id| | |]|] eqn:Hid; try by left.
  right. exists schema, id. rewrite lookup_insert_eq.
  unfold declared_id. by rewrite Hid.
Qed.

Lemma validate_cache (c : gmap string pyval) array_types spec schema_id version
    allow_tensors :
  (validate c array_types spec schema_id version allow_tensors).2 =
  (load_schema c schema_id version).2.
Proof.
  unfold validate. by destruct (load_schema c schema_id version) as [[schema|e] c'].
Qed.

(** Asking again for the same schema gives the same outcome and leaves the
    cache as the first call left it. *)
Lemma load_schema_twice (c : gmap string pyval) schema_id version :
  load_schema (load_schema c schema_id version).2 schema_id version =
  load_schema c schema_id version.
Proof.
  destruct (load_schema_cache c schema_id version)
    as [Hsame|(schema & id & Hread & Hid & Hmiss & Hload)].
  - by rewrite Hsame.
  - rewrite Hload. simpl.
    destruct (decide (id = cache_key version schema_id)) as [->|Hne].
    + apply load_schema_hit. by rewrite lookup_insert_eq.
    + rewrite (load_schema_miss _ _ _ schema id); [|by rewrite lookup_insert_ne|done..].
      by rewrite insert_insert_eq.
Qed.

Lemma cache_from_store_load_schema c schema_id version :
  cache_from_store c -> cache_from_store (load_schema c schema_id version).2.
Proof.
  intros Hc.
  destruct (load_schema_cache c schema_id version)
    as [->|(schema & id & Hread & Hid & _ & ->)]; [done|].
  intros k d. simpl. rewrite lookup_insert.
  case_decide as Hk; [|by apply Hc].
  intros [= <-]. subst k. eauto.
Qed.

Lemma cache_from_store_calls c c' :
  calls c c' -> cache_from_store c -> cache_from_store c'.
Proof.
  induction 1 as [| |c c' tys spec n v a _ IH]; intros Hc; [done| |].
  - by apply cache_from_store_load_schema; auto.
  - rewrite validate_cache. by apply cache_from_store_load_schema; auto.
Qed.

Lemma cache_from_store_reachable c : reachable c -> cache_from_store c.
Proof.
  intros H. apply (cache_from_store_calls _ _ H). intros k d. by rewrite lookup_empty.
Qed.

(** The state the import of the module leaves is one of them. *)
Lemma cache_after_import_reachable :
  reachable (cache_after_import joinpath read_schema).2.
Proof. apply calls_load_schema, calls_none. Qed.

Lemma calls_trans c1 c2 c3 : calls c1 c2 -> calls c2 c3 -> calls c1 c3.
Proof.
  intros H12 H23.
  induction H23; [done | apply calls_load_schema; auto | apply calls_validate; auto].
Qed.


(** C4: for a pair present in the store, two successive calls return the
    same document (and the second call leaves the cache alone). *)
Theorem load_schema_idempotent (c : gmap string pyval) schema_id version doc id :
  read_schema (version_or_default version) schema_id = Return doc ->
  declared_id doc = Some id ->
  exists schema c1,
    load_schema c schema_id version = (Return schema, c1) /\
    load_schema c1 schema_id version = (Return schema, c1).
Proof.
  intros Hread Hid.
  assert (exists schema c1, load_schema c schema_id version = (Return schema, c1))
    as (schema & c1 & Hload).
  { destruct (c !! cache_key version schema_id) as [schema|] eqn:Hkey.
    - eauto using load_schema_hit.
    - eauto using load_schema_miss. }
  exists schema, c1. split; [done|].
  pose proof (load_schema_twice c schema_id version) as Htwice.
  by rewrite Hload in Htwice.
Qed.

(** With the layout in the words of the store's description, line 69 only
    ever assigns to a key that is not in the cache: the identifier a
    document declares is the key whose lookup has just failed. *)
Lemma load_schema_writes_absent_key (c : gmap string pyval) schema_id version :
  declared_ids_follow_paths joinpath read_schema ->
  (load_schema c schema_id version).2 = c \/
  exists k schema,
    c !! k = None /\ (load_schema c schema_id version).2 = <[k := schema]> c.
Proof.
  intros Hfollow.
  destruct (load_schema_cache c schema_id version)
    as [Hsame|(schema & id & Hread & Hid & Hmiss & Hload)]; [by left|].
  right. exists id, schema. rewrite Hload. split; [|done].
  rewrite (Hfollow _ _ _ Hread) in Hid. by injection Hid as <-.
Qed.

(** C5: once a document is cached under an identifier, no later sequence
    of [load_schema] and [validate] calls changes the entry. *)
Theorem cached_schema_kept c c' k schema :
  declared_ids_unique read_schema ->
  reachable c ->
  c !! k = Some schema ->
  calls c c' ->
  c' !! k = Some schema.
Proof.
  intros Hunique Hreach Hk Hcalls.
  assert (Hstep : forall c0 schema_id version,
             cache_from_store c0 -> c0 !! k = Some schema ->
             (load_schema c0 schema_id version).2 !! k = Some schema).
  { intros c0 n v Hc0 Hk0.
    destruct (load_schema_cache c0 n v)
      as [->|(doc & id & Hread & Hid & _ & ->)]; [done|].
    simpl. rewrite lookup_insert. case_decide as Heq; [|done]. subst id.
    destruct (Hc0 _ _ Hk0) as (Hid' & v' & n' & Hread').
    f_equal. apply (Hunique _ _ _ _ _ _ Hread Hread'); [congruence|eauto]. }
  induction Hcalls as [|c c' n v Hcalls IH|c c' tys spec n v a Hcalls IH]; [done| |].
  - apply Hstep; [|by auto].
    apply cache_from_store_reachable. eapply calls_trans; eauto.
  - rewrite validate_cache. apply Hstep; [|by auto].
    apply cache_from_store_reachable. eapply calls_trans; eauto.
Qed.

(** ** [validate] *)

(** C9: calling [validate] a second time with the same arguments, in the
    state the first call left, gives the same outcome, and the cache stays
    as it is. *)
Theorem validate_deterministic (c : gmap string pyval) array_types spec schema_id
    version allow_tensors :
  validate (validate c array_types spec schema_id version allow_tensors).2
           array_types spec schema_id version allow_tensors
  = validate c array_types spec schema_id version allow_tensors.
Proof.
  rewrite validate_cache. unfold validate.
  by rewrite load_schema_twice.
Qed.


(** C1: against a schema that requires the ["array"] member to have type
    [array], an instance whose member is a tensor of a registered array
    type is accepted when tensors are allowed, and rejected with a
    violation of the [type] keyword at that member when they are not. *)
Theorem validate_tensor_array (c : gmap string pyval) array_types members cls id
    schema_id version c1 :
  load_schema c schema_id version = (Return (array_schema id), c1) ->
  dict_get members "array" = Some (PObject cls) ->
  cls ∈ array_types ->
  (2 <= recursion_limit)%nat ->
  validate c array_types (PDict members) schema_id version true
    = (Return PNone, c1) /\
  validate c array_types (PDict members) schema_id version false
    = (Raise (InvalidSpecification
                {| validator := Some "type";
                   validator_value := PStr "array";
                   instance := PObject cls;
                   path := [Key "array"];
                   schema_path := [Key "properties"; Key "array"; Key "type"] |}
                schema_id), c1).
Proof.
  intros Hload Hmember Hcls Hlimit.
  destruct recursion_limit as [|[|depth]] eqn:Hdepth; [lia..|].
  unfold validate, spec_errors. rewrite Hload.
  split; cbn; rewrite Hmember; cbn; [|reflexivity].
  unfold kw_type. cbn. by rewrite bool_decide_eq_true_2.
Qed.

End CacheProperties.

(** ** Examples *)

(** C7, where the code departs from the claim: a name that is bound in
    [hashlib] to something other than the constructor of a fixed-length
    hash passes the [getattr] test, and the call that follows raises
    [TypeError], not [ValueError]. *)
Theorem digest_attribute_that_is_no_algorithm float_repr impl :
  digest float_repr (hashlib_documented impl) (PDict [("a", PInt 1)])
    "algorithms_guaranteed" = Raise TypeError /\
  digest float_repr (hashlib_documented impl) (PDict [("a", PInt 1)])
    "new" = Raise TypeError /\
  digest float_repr (hashlib_documented impl) (PDict [("a", PInt 1)])
    "shake_128" = Raise TypeError.
Proof. repeat split; reflexivity. Qed.

(** The docstring of [digest]: the sha256 digest of the example object. *)
Lemma digest_docstring_example :
  digest float_repr_integral hashlib_sha256 docstring_obj "sha256"
  = Return "a38f6093800189b79bc22ef677baf90c75705af2cfc7ff594159eca54eaa7928".
Proof. vm_compute. reflexivity. Qed.

Lemma docstring_obj_same_mapping : same_mapping docstring_obj docstring_obj_reordered.
Proof.
  apply same_dict.
  - apply (bool_decide_unpack _). by vm_compute.
  - apply (bool_decide_unpack _). by vm_compute.
  - intros k. cbn [dict_get].
    destruct (String.eqb_spec "a" k), (String.eqb_spec "b" k), (String.eqb_spec "c" k);
      subst; try discriminate; constructor; apply same_refl.
Qed.

(** C6 at the object of the docstring. *)
Lemma digest_insertion_order_witness :
  same_mapping docstring_obj docstring_obj_reordered /\
  digest float_repr_integral hashlib_sha256 docstring_obj "sha256"
  = digest float_repr_integral hashlib_sha256 docstring_obj_reordered "sha256".
Proof.
  split; [exact docstring_obj_same_mapping|].
  exact (digest_insertion_order float_repr_integral hashlib_sha256
           docstring_obj docstring_obj_reordered "sha256" docstring_obj_same_mapping).
Defined.

(** The example store has the layout the cache relies on. *)
Lemma cut_append c v n x y :
  cut c (v +:+ String c n) = Some (x, y) -> contains c y = false -> v = x /\ n = y.
Proof.
  revert x. induction v as [|a v IH]; intros x.
  - change (EmptyString +:+ String c n) with (String c n). cbn [cut].
    rewrite Ascii.eqb_refl. by intros [= <- <-].
  - change (String a v +:+ String c n) with (String a (v +:+ String c n)). cbn [cut].
    destruct (Ascii.eqb_spec a c) as [->|Hne].
    + intros [= <- <-] Hy. exfalso. revert Hy. clear.
      induction v as [|b v IH].
      * change (EmptyString +:+ String c n) with (String c n). cbn [contains].
        by rewrite Ascii.eqb_refl.
      * change (String b v +:+ String c n) with (String b (v +:+ String c n)).
        cbn [contains]. destruct (Ascii.eqb b c); [done|exact IH].
    + destruct (cut c (v +:+ String c n)) as [[before after]|] eqn:Hcut; [|done].
      intros [= <- <-] Hy. destruct (IH before eq_refl Hy) as [-> ->]. done.
Qed.

Lemma array_store_return version schema_id schema :
  array_store version schema_id = Return schema ->
  version = "1.0.0" /\ schema_id = "array.json" /\ schema = array_schema array_id.
Proof.
  unfold array_store.
  destruct (String.eqb_spec version "1.0.0"), (String.eqb_spec schema_id "array.json");
    simpl; intros [= <-]; auto.
Qed.

Lemma array_store_locates : declared_ids_locate plain_joinpath array_store.
Proof.
  intros v n schema v' n' (-> & -> & ->)%array_store_return Hid.
  injection Hid as Hid.
  change ("1.0.0/array.json" = plain_joinpath v' n') in Hid.
  unfold plain_joinpath in Hid.
  destruct (cut_append "/" v' n' "1.0.0" "array.json") as [-> ->]; [|done..].
  change (v' +:+ String "/" n') with (v' +:+ "/" +:+ n'). by rewrite <- Hid.
Qed.

Lemma array_store_unique : declared_ids_unique array_store.
Proof.
  intros v n schema v' n' schema' (_ & _ & ->)%array_store_return
    (_ & _ & ->)%array_store_return _ _. done.
Qed.

Lemma array_cache_loaded :
  load_schema plain_joinpath array_store ∅ "array.json" None
  = (Return (array_schema array_id), array_cache).
Proof. reflexivity. Qed.

Lemma array_cache_reachable :
  reachable plain_joinpath array_store no_resolver example_base_uri
    example_recursion_limit array_cache.
Proof.
  unfold reachable.
  replace array_cache
    with (load_schema plain_joinpath array_store ∅ "array.json" None).2
    by (by rewrite array_cache_loaded).
  apply calls_load_schema, calls_none.
Qed.

(** C1 with a numpy array in the ["array"] member. *)
Lemma validate_tensor_array_witness :
  load_schema plain_joinpath array_store ∅ "array.json" None
    = (Return (array_schema array_id), array_cache) /\
  dict_get [("array", PObject "numpy.ndarray")] "array" = Some (PObject "numpy.ndarray") /\
  "numpy.ndarray" ∈ ["numpy.ndarray"; "jax.Array"] /\
  (2 <= example_recursion_limit)%nat /\
  validate plain_joinpath array_store no_resolver example_base_uri
    example_recursion_limit ∅ ["numpy.ndarray"; "jax.Array"]
    (PDict [("array", PObject "numpy.ndarray")]) "array.json" None true
    = (Return PNone, array_cache) /\
  validate plain_joinpath array_store no_resolver example_base_uri
    example_recursion_limit ∅ ["numpy.ndarray"; "jax.Array"]
    (PDict [("array", PObject "numpy.ndarray")]) "array.json" None false
    = (Raise (InvalidSpecification
                {| validator := Some "type";
                   validator_value := PStr "array";
                   instance := PObject "numpy.ndarray";
                   path := [Key "array"];
                   schema_path := [Key "properties"; Key "array"; Key "type"] |}
                "array.json"), array_cache).
Proof.
  assert (H1 : dict_get [("array", PObject "numpy.ndarray")] "array"
               = Some (PObject "numpy.ndarray")) by reflexivity.
  assert (H2 : "numpy.ndarray" ∈ ["numpy.ndarray"; "jax.Array"]) by left.
  assert (H3 : (2 <= example_recursion_limit)%nat)
    by (unfold example_recursion_limit; lia).
  split; [exact array_cache_loaded|]. split; [exact H1|].
  split; [exact H2|]. split; [exact H3|].
  exact (validate_tensor_array plain_joinpath array_store no_resolver
           example_base_uri example_recursion_limit ∅ _ _ _ _ _ _ _
           array_cache_loaded H1 H2 H3).
Defined.



(** C4 at the schema of the example store, from the empty cache. *)
Lemma load_schema_idempotent_witness :
  array_store (version_or_default None) "array.json" = Return (array_schema array_id) /\
  declared_id (array_schema array_id) = Some array_id /\
  exists schema c1,
    load_schema plain_joinpath array_store ∅ "array.json" None = (Return schema, c1) /\
    load_schema plain_joinpath array_store c1 "array.json" None = (Return schema, c1).
Proof.
  split; [reflexivity|]. split; [reflexivity|].
  exact (load_schema_idempotent plain_joinpath array_store ∅ "array.json" None
           (array_schema array_id) array_id eq_refl eq_refl).
Defined.

(** C5 at the cached example schema, after a call for a version that does
    not exist and a call that validates against the cached schema. *)
Lemma cached_schema_kept_witness :
  declared_ids_unique array_store /\
  reachable plain_joinpath array_store no_resolver example_base_uri
    example_recursion_limit array_cache /\
  array_cache !! array_id = Some (array_schema array_id) /\
  calls plain_joinpath array_store no_resolver example_base_uri
    example_recursion_limit array_cache
    (validate plain_joinpath array_store no_resolver example_base_uri
       example_recursion_limit
       (load_schema plain_joinpath array_store array_cache "array.json"
          (Some "0.0.0")).2
       [] PNone "array.json" None true).2 /\
  (validate plain_joinpath array_store no_resolver example_base_uri
     example_recursion_limit
     (load_schema plain_joinpath array_store array_cache "array.json"
        (Some "0.0.0")).2
     [] PNone "array.json" None true).2 !! array_id
  = Some (array_schema array_id).
Proof.
  assert (Hcalls :
    calls plain_joinpath array_store no_resolver example_base_uri
      example_recursion_limit array_cache
      (validate plain_joinpath array_store no_resolver example_base_uri
         example_recursion_limit
         (load_schema plain_joinpath array_store array_cache "array.json"
            (Some "0.0.0")).2
         [] PNone "array.json" None true).2)
    by apply calls_validate, calls_load_schema, calls_none.
  assert (Hcached : array_cache !! array_id = Some (array_schema array_id))
    by reflexivity.
  split; [exact array_store_unique|]. split; [exact array_cache_reachable|].
  split; [exact Hcached|]. split; [exact Hcalls|].
  exact (cached_schema_kept plain_joinpath array_store no_resolver example_base_uri
           example_recursion_limit array_cache _ array_id (array_schema array_id)
           array_store_unique array_cache_reachable Hcached Hcalls).
Defined.

(* ===================================================================== *)
(** * Part III: further properties                                         *)
(* ===================================================================== *)

(** ** Option strings and [EqDelimStringParamType.convert] *)

Lemma cut_split c s key value :
  cut c s = Some (key, value) -> s = key +:+ String c value /\ contains c key = false.
Proof.
  revert key. induction s as [|a s IH]; intros key; simpl; [done|].
  destruct (Ascii.eqb_spec a c) as [->|Hne].
  - by intros [= <- <-].
  - destruct (cut c s) as [[before after]|]; [|done]. intros [= <- <-].
    destruct (IH before eq_refl) as [-> Hkey]. split; [done|]. simpl.
    rewrite Hkey. by apply Ascii.eqb_neq in Hne as ->.
Qed.

Lemma append_cons_is_cons s c t : exists a u, s +:+ String c t = String a u.
Proof. destruct s; simpl; eauto. Qed.

Lemma join_cons_is_cons sep a u rest :
  exists b v, join sep (String a u :: rest) = String b v.
Proof.
  destruct rest as [|line rest]; [by exists a, u|].
  by exists a, (u +:+ sep +:+ join sep (line :: rest)).
Qed.

(** The document of a list with a first entry is not empty. *)
Lemma document_nonempty opt opts :
  contains "=" opt = true ->
  exists a u,
    join (String newline EmptyString) (key_value_line <$> opt :: opts) = String a u.
Proof.
  intros [[key value] Hcut]%cut_contains. rewrite fmap_cons.
  unfold key_value_line at 1. rewrite Hcut.
  destruct (append_cons_is_cons key ":" (String " " value)) as (a & u & Hline).
  change (key +:+ ": " +:+ value) with (key +:+ String ":" (String " " value)).
  rewrite Hline. apply join_cons_is_cons.
Qed.

(** X1: the line written for an option splits it at its first ['=']: the
    key is the text before it and holds no ['='], the value is all the text
    after it, further delimiters included. *)
Theorem option_line_splits_at_first_delimiter opt line :
  option_line opt = Return line ->
  exists key value,
    opt = key +:+ "=" +:+ value /\ contains "=" key = false /\
    line = key +:+ ": " +:+ value.
Proof.
  unfold option_line, split1.
  destruct (cut "=" opt) as [[key value]|] eqn:Hcut; [|done].
  intros [= <-]. destruct (cut_split _ _ _ _ Hcut) as [-> Hkey]. by exists key, value.
Qed.

Lemma option_line_splits_at_first_delimiter_witness :
  option_line "b=x=y" = Return "b: x=y" /\
  exists key value,
    "b=x=y" = key +:+ "=" +:+ value /\ contains "=" key = false /\
    "b: x=y" = key +:+ ": " +:+ value.
Proof.
  split; [reflexivity|].
  exact (option_line_splits_at_first_delimiter "b=x=y" "b: x=y" eq_refl).
Defined.

Section OptionParsingFurther.

Variable yaml_load_document : string -> result pyval.

Lemma options_document_parsed opt opts :
  Forall (fun opt => contains "=" opt = true) (opt :: opts) ->
  options_from_eqdelimstring yaml_load_document (opt :: opts)
  = yaml_load_document
      (join (String newline EmptyString) (key_value_line <$> opt :: opts)).
Proof.
  intros Hall. unfold options_from_eqdelimstring.
  rewrite (sequence_option_lines_return _ Hall).
  apply Forall_cons in Hall as [Hopt _].
  destruct (document_nonempty opt opts Hopt) as (a & u & Hdoc).
  change (Return ?l ≫= ?f) with (f l). cbv beta. by rewrite Hdoc.
Qed.

(** X2: for a list that is not empty and whose entries all hold a
    delimiter, the document is not empty, so the result is what the YAML
    parser makes of it: the [None] of an empty stream arises for the empty
    list only. *)
Theorem options_from_eqdelimstring_asks_the_parser opts :
  opts <> [] ->
  Forall (fun opt => contains "=" opt = true) opts ->
  options_from_eqdelimstring yaml_load_document opts
  = yaml_load_document (join (String newline EmptyString) (key_value_line <$> opts)).
Proof.
  destruct opts as [|opt opts]; [done|]. intros _ Hall.
  by apply options_document_parsed.
Qed.

(** X3: [convert] never lets an [IndexError] out.  A value without ['=']
    is refused with click's [BadParameter]; a value with one is handed to
    the YAML parser as the line [key: value], and an [IndexError] raised by
    the parser itself is reported as the same [BadParameter]. *)
Theorem convert_outcome value :
  convert yaml_load_document value <> Raise IndexError /\
  convert yaml_load_document value =
    if contains "=" value
    then match yaml_load_document (key_value_line value) with
         | Raise IndexError =>
             Raise (BadParameter (value +:+ " is not a valid equal-delimited string"))
         | r => r
         end
    else Raise (BadParameter (value +:+ " is not a valid equal-delimited string")).
Proof.
  split.
  - unfold convert.
    by destruct (options_from_eqdelimstring yaml_load_document [value]) as [|[]].
  - unfold convert. destruct (contains "=" value) eqn:Hvalue.
    + by rewrite (options_document_parsed value []) by (by repeat constructor).
    + unfold options_from_eqdelimstring.
      rewrite (sequence_option_lines_raise [value]); [done|by left].
Qed.

End OptionParsingFurther.

Lemma options_from_eqdelimstring_asks_the_parser_witness :
  ["a=1"; "b=x=y"] <> [] /\
  Forall (fun opt => contains "=" opt = true) ["a=1"; "b=x=y"] /\
  options_from_eqdelimstring echo_document ["a=1"; "b=x=y"]
  = echo_document
      (join (String newline EmptyString) (key_value_line <$> ["a=1"; "b=x=y"])).
Proof.
  assert (H1 : ["a=1"; "b=x=y"] <> @nil string) by discriminate.
  assert (H2 : Forall (fun opt => contains "=" opt = true) ["a=1"; "b=x=y"])
    by (repeat constructor).
  split; [exact H1|]. split; [exact H2|].
  exact (options_from_eqdelimstring_asks_the_parser echo_document _ H1 H2).
Defined.

(** ** [citation] *)

Lemma linebreak_space c : is_linebreak c = true -> is_space c = true.
Proof.
  unfold is_linebreak, is_space.
  rewrite !orb_true_iff, !andb_true_iff, !N.leb_le, !N.eqb_eq. lia.
Qed.

(** Joining the lines of a text removes its line boundaries and nothing
    else. *)
Lemma concat_splitlines_bounded n s :
  (length s <= n)%nat ->
  concat (splitlines s) = List.filter (fun c => negb (is_linebreak c)) s.
Proof.
  revert s. induction n as [|n IH]; intros [|c s] Hn; simpl in *; try done; try lia.
  destruct (is_linebreak c) eqn:Hc; simpl.
  - destruct (c =? 13)%N; [|apply IH; lia].
    destruct s as [|c' s]; [done|]. simpl in Hn.
    destruct (N.eqb_spec c' 10) as [->|Hne]; [|apply IH; simpl; lia].
    simpl. apply IH. lia.
  - rewrite <- (IH s) by lia. by destruct (splitlines s).
Qed.

Lemma concat_splitlines s :
  concat (splitlines s) = List.filter (fun c => negb (is_linebreak c)) s.
Proof. by apply (concat_splitlines_bounded (length s)). Qed.

Lemma lstrip_split s :
  exists pre, s = pre ++ lstrip s /\ Forall (fun c => is_space c = true) pre.
Proof.
  induction s as [|c s (pre & IH & Hpre)]; [by exists []|]. simpl.
  destruct (is_space c) eqn:Hc.
  - exists (c :: pre). split; [by rewrite IH at 1|by constructor].
  - by exists [].
Qed.

Lemma lstrip_app_keep l c : is_space c = false -> lstrip (l ++ [c]) = lstrip l ++ [c].
Proof.
  intros Hc. induction l as [|a l IH]; simpl; [by rewrite Hc|].
  by destruct (is_space a).
Qed.

Lemma rstrip_cons_keep c s : is_space c = false -> rstrip (c :: s) = c :: rstrip s.
Proof.
  intros Hc. unfold rstrip. simpl. rewrite (lstrip_app_keep _ _ Hc).
  by rewrite rev_app_distr.
Qed.

Lemma lstrip_first s c : head (lstrip s) = Some c -> is_space c = false.
Proof.
  induction s as [|a s IH]; [done|]. simpl.
  destruct (is_space a) eqn:Ha; [done|]. simpl. by intros [= <-].
Qed.

Lemma strip_first s c : head (strip s) = Some c -> is_space c = false.
Proof.
  unfold strip. pose proof (lstrip_first s) as H.
  destruct (lstrip s) as [|a t]; [done|].
  rewrite (rstrip_cons_keep a t (H a eq_refl)). simpl. intros [= <-]. by apply H.
Qed.

Lemma last_rev {A} (l : list A) : last (rev l) = head l.
Proof. destruct l as [|a l]; [done|]. cbn [rev head]. apply last_snoc. Qed.

Lemma strip_last s c : last (strip s) = Some c -> is_space c = false.
Proof. unfold strip, rstrip. rewrite last_rev. apply lstrip_first. Qed.

Lemma rstrip_split s :
  exists post, s = rstrip s ++ post /\ Forall (fun c => is_space c = true) post.
Proof.
  destruct (lstrip_split (rev s)) as (pre & Hs & Hpre). exists (rev pre). split.
  - unfold rstrip. rewrite <- rev_app_distr, <- Hs. by rewrite rev_involutive.
  - rewrite Forall_forall in *. intros c Hc. apply Hpre.
    apply list_elem_of_In. apply list_elem_of_In in Hc. by apply in_rev.
Qed.

Lemma filter_first {A} (p : A -> bool) l c :
  head l = Some c -> p c = true -> head (List.filter p l) = Some c.
Proof. destruct l; [done|]. simpl. intros [= ->] ->. done. Qed.

(** The line splitting on some short texts: a boundary at the end opens no
    line, and a carriage return with a line feed is one boundary. *)
Lemma splitlines_examples :
  splitlines (text_of_string "") = [] /\
  splitlines (text_of_string "a") = [text_of_string "a"] /\
  splitlines [97; 10]%N = [text_of_string "a"] /\
  splitlines [97; 10; 10]%N = [text_of_string "a"; []] /\
  splitlines [97; 13; 10; 98]%N = [text_of_string "a"; text_of_string "b"] /\
  splitlines [97; 10; 13; 98]%N = [text_of_string "a"; []; text_of_string "b"] /\
  splitlines [13; 13; 10]%N = [[]; []].
Proof. repeat split. Qed.

Section CitationProperties.

Variable read_citation : result text.

(** X4: the one-line citation is the citation with its line boundaries
    taken out and nothing else changed; no line boundary is left in it, and
    it fails exactly when the citation does. *)
Theorem citation_oneline_drops_line_breaks :
  citation read_citation true
  = List.filter (fun c => negb (is_linebreak c)) <$> citation read_citation false /\
  forall data,
    citation read_citation true = Return data ->
    Forall (fun c => is_linebreak c = false) data.
Proof.
  unfold citation. destruct read_citation as [raw|e]; csimpl; [|done].
  rewrite concat_splitlines. split; [done|]. intros data [= <-].
  apply Forall_forall. intros c Hc. apply list_elem_of_In, filter_In in Hc as [_ Hc].
  by apply negb_true_iff.
Qed.

(** X5: in both forms the citation neither starts nor ends with white
    space. *)
Theorem citation_strips_both_ends oneline data :
  citation read_citation oneline = Return data ->
  (forall c, head data = Some c -> is_space c = false) /\
  (forall c, last data = Some c -> is_space c = false).
Proof.
  unfold citation. destruct read_citation as [raw|e]; csimpl; [|done].
  intros [= <-]. destruct oneline; [|split; [apply strip_first | apply strip_last]].
  rewrite concat_splitlines.
  assert (Hkeep : forall c, is_space c = false -> negb (is_linebreak c) = true).
  { intros c Hc. destruct (is_linebreak c) eqn:Hl; [|done].
    apply linebreak_space in Hl. congruence. }
  split; intros c Hc.
  - destruct (head (strip raw)) as [a|] eqn:Ha.
    + pose proof (strip_first _ _ Ha) as Hsp.
      rewrite (filter_first _ _ _ Ha (Hkeep _ Hsp)) in Hc. by injection Hc as <-.
    + destruct (strip raw); [done|discriminate].
  - rewrite <- (rev_involutive (List.filter _ _)), last_rev in Hc.
    rewrite <- (rev_involutive (strip raw)) in Hc.
    rewrite filter_rev, rev_involutive in Hc.
    destruct (head (rev (strip raw))) as [a|] eqn:Ha.
    + assert (Hsp : is_space a = false).
      { apply (strip_last raw). by rewrite <- last_rev, rev_involutive in Ha. }
      rewrite (filter_first _ _ _ Ha (Hkeep _ Hsp)) in Hc. by injection Hc as <-.
    + destruct (rev (strip raw)); [done|discriminate].
Qed.

(** X6: the citation is the text of the file, from which only white space
    at its two ends has been removed. *)
Theorem citation_keeps_the_text data :
  citation read_citation false = Return data ->
  exists raw pre post,
    read_citation = Return raw /\ raw = pre ++ data ++ post /\
    Forall (fun c => is_space c = true) pre /\
    Forall (fun c => is_space c = true) post.
Proof.
  unfold citation. destruct read_citation as [raw|e]; csimpl; [|done].
  intros [= <-]. destruct (lstrip_split raw) as (pre & Hraw & Hpre).
  destruct (rstrip_split (lstrip raw)) as (post & Hl & Hpost).
  exists raw, pre, post. split; [done|]. split; [|done].
  unfold strip. by rewrite <- Hl.
Qed.

End CitationProperties.

Lemma citation_strips_both_ends_witness :
  citation (Return (text_of_string " @a{b, c} ")) true
    = Return (text_of_string "@a{b, c}") /\
  (forall c, head (text_of_string "@a{b, c}") = Some c -> is_space c = false) /\
  (forall c, last (text_of_string "@a{b, c}") = Some c -> is_space c = false).
Proof.
  split; [reflexivity|].
  exact (citation_strips_both_ends (Return (text_of_string " @a{b, c} ")) true
           (text_of_string "@a{b, c}") eq_refl).
Defined.

Lemma citation_keeps_the_text_witness :
  citation (Return (text_of_string " @a{b, c} ")) false
    = Return (text_of_string "@a{b, c}") /\
  exists raw pre post,
    Return (text_of_string " @a{b, c} ") = Return raw /\
    raw = pre ++ text_of_string "@a{b, c}" ++ post /\
    Forall (fun c => is_space c = true) pre /\
    Forall (fun c => is_space c = true) post.
Proof.
  split; [reflexivity|].
  exact (citation_keeps_the_text (Return (text_of_string " @a{b, c} "))
           (text_of_string "@a{b, c}") eq_refl).
Defined.

(** ** [digest] *)

Lemma sequence_map_total {X A} (f : X -> result A) (p : X -> bool) xs :
  Forall (fun x => if p x then exists a, f x = Return a else f x = Raise TypeError) xs ->
  if forallb p xs then exists parts, sequence (map f xs) = Return parts
  else sequence (map f xs) = Raise TypeError.
Proof.
  induction 1 as [|x xs Hx _ IH]; cbn [forallb map sequence]; [by eexists|].
  destruct (p x).
  - destruct Hx as [a ->]. cbn [andb]. destruct (forallb p xs).
    + destruct IH as [parts ->]. by eexists.
    + by rewrite IH.
  - by rewrite Hx.
Qed.

Lemma forallb_Permutation {A} (p : A -> bool) l1 l2 :
  l1 ≡ₚ l2 -> forallb p l1 = forallb p l2.
Proof.
  induction 1 as [|x l1 l2 _ IH|x y l|l1 l2 l3 _ IH1 _ IH2]; cbn [forallb];
    [done|by rewrite IH|by destruct (p x), (p y)|congruence].
Qed.

Section DigestFurther.

Variable float_repr : spec_float -> string.
Variable hashlib : string -> option hashlib_attr.

(** Serialisation succeeds exactly on the values that hold nothing but JSON
    values, and fails with [TypeError] on the others. *)
Lemma dumps_json_value obj :
  if json_value obj then exists stringified, dumps float_repr obj = Return stringified
  else dumps float_repr obj = Raise TypeError.
Proof.
  induction obj as [|b|?|?|?|xs IH|d IH|?] using pyval_ind_nested;
    try (by eexists); [by destruct b; eexists| |].
  - cbn [json_value dumps].
    pose proof (sequence_map_total (dumps float_repr) json_value xs IH) as H.
    destruct (forallb json_value xs); [|by rewrite H].
    destruct H as [parts ->]. by eexists.
  - rewrite dumps_dict. cbn [json_value].
    set (p := fun kr : string * result string =>
                match kr.2 with Return _ => true | Raise _ => false end).
    assert (Hmembers : Forall (fun kr => if p kr then exists a, kr.2 = Return a
                                         else kr.2 = Raise TypeError)
                         (sorted_items (dict_members float_repr d))).
    { unfold sorted_items. rewrite merge_sort_Permutation.
      unfold dict_members. apply Forall_fmap.
      apply (Forall_impl _ _ _ IH). intros [k v] Hv. unfold p. simpl in *.
      destruct (json_value v); [destruct Hv as [a ->]; by eexists|by rewrite Hv]. }
    assert (Hall : forallb p (sorted_items (dict_members float_repr d))
                   = forallb (fun kv => match kv with (_, x) => json_value x end) d).
    { unfold sorted_items. rewrite (forallb_Permutation _ _ _ (merge_sort_Permutation _ _)).
      unfold dict_members. clear Hmembers.
      induction IH as [|[k v] d Hv _ IHd]; [done|]. cbn [fmap list_fmap forallb].
      rewrite <- IHd. f_equal. unfold p. simpl in *.
      destruct (json_value v); [by destruct Hv as [a ->]|by rewrite Hv]. }
    pose proof (sequence_map_total snd p _ Hmembers) as H.
    rewrite Hall in H. change (map snd ?l) with (snd <$> l) in H.
    destruct (forallb _ d); [|by rewrite H].
    destruct H as [parts ->]. by eexists.
Qed.



End DigestFurther.



(** ** The schema cache *)

Section CacheFurther.

Variable joinpath : string -> string -> string.
Variable read_schema : string -> string -> result pyval.
Variable ref_resolver :
  gmap string pyval -> string -> pyval -> pyval -> result (pyval * pyval).
Variable base_uri : string.
Variable recursion_limit : nat.

(** X9: a [load_schema] call that raises leaves the cache as it was, and
    [validate] passes the same exception on, not wrapped (line 112 is
    outside the [try]). *)
Theorem failed_load_changes_nothing (c : gmap string pyval) schema_id version e c1
    array_types spec allow_tensors :
  load_schema joinpath read_schema c schema_id version = (Raise e, c1) ->
  c1 = c /\
  validate joinpath read_schema ref_resolver base_uri recursion_limit
    c array_types spec schema_id version allow_tensors = (Raise e, c).
Proof.
  intros Hload.
  assert (c1 = c) as ->.
  { destruct (load_schema_cache joinpath read_schema c schema_id version)
      as [Hsame|(schema & id & _ & _ & _ & Hreturn)].
    - by rewrite Hload in Hsame.
    - rewrite Hload in Hreturn. discriminate. }
  split; [done|]. unfold validate. by rewrite Hload.
Qed.

(** X10: no sequence of [load_schema] and [validate] calls removes a key
    from the cache. *)
Theorem cache_keys_are_kept c c' k :
  calls joinpath read_schema ref_resolver base_uri recursion_limit c c' ->
  is_Some (c !! k) -> is_Some (c' !! k).
Proof.
  assert (Hstep : forall (c0 : gmap string pyval) schema_id version,
             is_Some (c0 !! k) ->
             is_Some ((load_schema joinpath read_schema c0 schema_id version).2 !! k)).
  { intros c0 n v Hk.
    destruct (load_schema_cache joinpath read_schema c0 n v)
      as [->|(schema & id & _ & _ & _ & ->)]; [done|].
    simpl. rewrite lookup_insert_is_Some. destruct (decide (id = k)); auto. }
  induction 1 as [| |c c' tys spec n v a _ IH]; intros Hk; [done| |].
  - apply Hstep. auto.
  - rewrite validate_cache. apply Hstep. auto.
Qed.

(** X11: in every state the cache can reach, each entry is a document of
    the store, and it sits under the identifier the document declares. *)
Theorem cached_documents_come_from_the_store c k schema :
  reachable joinpath read_schema ref_resolver base_uri recursion_limit c ->
  c !! k = Some schema ->
  declared_id schema = Some k /\
  exists version schema_id, read_schema version schema_id = Return schema.
Proof.
  intros Hreach Hk.
  pose proof (cache_from_store_calls joinpath read_schema ref_resolver base_uri
                recursion_limit _ _ Hreach) as Hc.
  apply Hc; [|done]. intros k' d. by rewrite lookup_empty.
Qed.

(** X12: once a schema whose declared identifier is the key of its request
    has been loaded, the store is not consulted for that request again: the
    next call returns the cached document whatever the store holds by
    then. *)
Theorem loaded_schema_is_not_read_again (c : gmap string pyval) schema_id version schema
    (read_schema' : string -> string -> result pyval) :
  c !! cache_key joinpath version schema_id = None ->
  read_schema (version_or_default version) schema_id = Return schema ->
  declared_id schema = Some (cache_key joinpath version schema_id) ->
  load_schema joinpath read_schema'
    (load_schema joinpath read_schema c schema_id version).2 schema_id version
  = (Return schema, <[cache_key joinpath version schema_id := schema]> c).
Proof.
  intros Hmiss Hread Hid.
  rewrite (load_schema_miss joinpath read_schema c _ _ _ _ Hmiss Hread Hid).
  apply load_schema_hit. apply lookup_insert_eq.
Qed.

(** X13: a schema that declares another identifier than the key of its
    request is entered under that identifier, so the request never hits the
    cache: the next call reads the store again and returns what the store
    holds by then. *)
Theorem misdeclared_schema_is_read_again (c : gmap string pyval) schema_id version
    schema k (read_schema' : string -> string -> result pyval) schema' k' :
  c !! cache_key joinpath version schema_id = None ->
  read_schema (version_or_default version) schema_id = Return schema ->
  declared_id schema = Some k ->
  k <> cache_key joinpath version schema_id ->
  read_schema' (version_or_default version) schema_id = Return schema' ->
  declared_id schema' = Some k' ->
  load_schema joinpath read_schema'
    (load_schema joinpath read_schema c schema_id version).2 schema_id version
  = (Return schema', <[k' := schema']> (<[k := schema]> c)).
Proof.
  intros Hmiss Hread Hid Hne Hread' Hid'.
  rewrite (load_schema_miss joinpath read_schema c _ _ _ _ Hmiss Hread Hid).
  apply load_schema_miss; [|done..]. by rewrite lookup_insert_ne.
Qed.

(** X14: in every state the cache can reach, a schema that [load_schema]
    returns declares a string identifier and is in the cache under it when
    the call is over. *)
Theorem loaded_schema_is_cached c schema_id version schema c1 :
  reachable joinpath read_schema ref_resolver base_uri recursion_limit c ->
  load_schema joinpath read_schema c schema_id version = (Return schema, c1) ->
  exists k, declared_id schema = Some k /\ c1 !! k = Some schema.
Proof.
  intros Hreach Hload.
  destruct (c !! cache_key joinpath version schema_id) as [cached|] eqn:Hkey.
  - rewrite (load_schema_hit joinpath read_schema c _ _ _ Hkey) in Hload.
    injection Hload as <- <-. exists (cache_key joinpath version schema_id).
    split; [|done].
    pose proof (cache_from_store_calls joinpath read_schema ref_resolver base_uri
                  recursion_limit _ _ Hreach) as Hc.
    apply (Hc ltac:(intros k' d; by rewrite lookup_empty) _ _ Hkey).
  - unfold load_schema in Hload. rewrite Hkey in Hload.
    destruct (read_schema _ schema_id) as [doc|]; [|discriminate].
    destruct (subscript doc "$id") as [[| | | |id| | |]|] eqn:Hid; try discriminate.
    rewrite lookup_insert_eq in Hload. injection Hload as <- <-.
    exists id. split; [unfold declared_id; by rewrite Hid|apply lookup_insert_eq].
Qed.

(** X15: what the import of the module does (line 74).  When
    [schemas/1.0.0/defs.json] cannot be read the import fails with the
    exception of the read; when the document declares a string identifier
    the cache holds exactly that document, under that identifier. *)
Theorem import_loads_defs :
  match read_schema SCHEMA_VERSION "defs.json" with
  | Raise e => cache_after_import joinpath read_schema = (Raise e, ∅)
  | Return defs =>
      forall id,
        declared_id defs = Some id ->
        cache_after_import joinpath read_schema = (Return defs, {[ id := defs ]})
  end.
Proof.
  unfold cache_after_import.
  destruct (read_schema SCHEMA_VERSION "defs.json") as [defs|e] eqn:Hread.
  - intros id Hid.
    rewrite (load_schema_miss joinpath read_schema ∅ "defs.json" None defs id);
      [by rewrite insert_empty|apply lookup_empty|done..].
  - unfold load_schema. rewrite lookup_empty.
    change (version_or_default None) with SCHEMA_VERSION. by rewrite Hread.
Qed.

End CacheFurther.

Lemma failed_load_changes_nothing_witness :
  load_schema plain_joinpath array_store array_cache "defs.json" None
    = (Raise FileNotFoundError, array_cache) /\
  array_cache = array_cache /\
  validate plain_joinpath array_store no_resolver example_base_uri
    example_recursion_limit array_cache [] PNone "defs.json" None true
    = (Raise FileNotFoundError, array_cache).
Proof.
  assert (H : load_schema plain_joinpath array_store array_cache "defs.json" None
              = (Raise FileNotFoundError, array_cache)) by reflexivity.
  split; [exact H|].
  exact (failed_load_changes_nothing plain_joinpath array_store no_resolver
           example_base_uri example_recursion_limit array_cache "defs.json" None
           FileNotFoundError array_cache [] PNone true H).
Defined.

Lemma cache_keys_are_kept_witness :
  calls plain_joinpath array_store no_resolver example_base_uri example_recursion_limit
    array_cache
    (load_schema plain_joinpath array_store array_cache "array.json" (Some "0.0.0")).2 /\
  is_Some (array_cache !! array_id) /\
  is_Some ((load_schema plain_joinpath array_store array_cache "array.json"
              (Some "0.0.0")).2 !! array_id).
Proof.
  assert (H1 : calls plain_joinpath array_store no_resolver example_base_uri
                 example_recursion_limit array_cache
                 (load_schema plain_joinpath array_store array_cache "array.json"
                    (Some "0.0.0")).2)
    by apply calls_load_schema, calls_none.
  assert (H2 : is_Some (array_cache !! array_id))
    by (exists (array_schema array_id); reflexivity).
  split; [exact H1|]. split; [exact H2|].
  exact (cache_keys_are_kept plain_joinpath array_store no_resolver example_base_uri
           example_recursion_limit array_cache _ array_id H1 H2).
Defined.

Lemma cached_documents_come_from_the_store_witness :
  reachable plain_joinpath array_store no_resolver example_base_uri
    example_recursion_limit array_cache /\
  array_cache !! array_id = Some (array_schema array_id) /\
  declared_id (array_schema array_id) = Some array_id /\
  exists version schema_id, array_store version schema_id = Return (array_schema array_id).
Proof.
  assert (H : array_cache !! array_id = Some (array_schema array_id)) by reflexivity.
  split; [exact array_cache_reachable|]. split; [exact H|].
  exact (cached_documents_come_from_the_store plain_joinpath array_store no_resolver
           example_base_uri example_recursion_limit array_cache array_id
           (array_schema array_id) array_cache_reachable H).
Defined.

Lemma loaded_schema_is_not_read_again_witness :
  (∅ : gmap string pyval) !! cache_key plain_joinpath None "array.json" = None /\
  array_store (version_or_default None) "array.json" = Return (array_schema array_id) /\
  declared_id (array_schema array_id) = Some (cache_key plain_joinpath None "array.json") /\
  load_schema plain_joinpath empty_store
    (load_schema plain_joinpath array_store ∅ "array.json" None).2 "array.json" None
  = (Return (array_schema array_id),
     <[cache_key plain_joinpath None "array.json" := array_schema array_id]> ∅).
Proof.
  split; [reflexivity|]. split; [reflexivity|]. split; [reflexivity|].
  exact (loaded_schema_is_not_read_again plain_joinpath array_store ∅ "array.json" None
           (array_schema array_id) empty_store eq_refl eq_refl eq_refl).
Defined.

Lemma loaded_schema_is_cached_witness :
  reachable plain_joinpath array_store no_resolver example_base_uri
    example_recursion_limit ∅ /\
  load_schema plain_joinpath array_store ∅ "array.json" None
    = (Return (array_schema array_id), array_cache) /\
  exists k,
    declared_id (array_schema array_id) = Some k /\
    array_cache !! k = Some (array_schema array_id).
Proof.
  assert (H : reachable plain_joinpath array_store no_resolver example_base_uri
                example_recursion_limit ∅) by apply calls_none.
  split; [exact H|]. split; [exact array_cache_loaded|].
  exact (loaded_schema_is_cached plain_joinpath array_store no_resolver example_base_uri
           example_recursion_limit ∅ "array.json" None (array_schema array_id)
           array_cache H array_cache_loaded).
Defined.

Lemma misdeclared_schema_is_read_again_witness :
  (∅ : gmap string pyval) !! cache_key plain_joinpath None "array.json" = None /\
  misplaced_store (version_or_default None) "array.json"
    = Return (array_schema "urn:elsewhere") /\
  declared_id (array_schema "urn:elsewhere") = Some "urn:elsewhere" /\
  "urn:elsewhere" <> cache_key plain_joinpath None "array.json" /\
  array_store (version_or_default None) "array.json" = Return (array_schema array_id) /\
  declared_id (array_schema array_id) = Some array_id /\
  load_schema plain_joinpath array_store
    (load_schema plain_joinpath misplaced_store ∅ "array.json" None).2 "array.json" None
  = (Return (array_schema array_id),
     <[array_id := array_schema array_id]>
       (<["urn:elsewhere" := array_schema "urn:elsewhere"]> ∅)).
Proof.
  assert (Hne : "urn:elsewhere" <> cache_key plain_joinpath None "array.json")
    by (intros H; vm_compute in H; discriminate H).
  split; [reflexivity|]. split; [reflexivity|]. split; [reflexivity|].
  split; [exact Hne|]. split; [reflexivity|]. split; [reflexivity|].
  exact (misdeclared_schema_is_read_again plain_joinpath misplaced_store ∅ "array.json"
           None (array_schema "urn:elsewhere") "urn:elsewhere" array_store
           (array_schema array_id) array_id eq_refl eq_refl eq_refl Hne eq_refl eq_refl).
Defined.

(** ** [validate] *)

(** The walk over the members of a schema or of an instance only depends
    on what is done with each member. *)
Lemma chain_all_map_ext {A} (f g : A -> errors) xs :
  (forall x, x ∈ xs -> f x = g x) -> chain_all (map f xs) = chain_all (map g xs).
Proof.
  intros H. f_equal. apply map_ext_in. intros x Hx. apply H. by apply list_elem_of_In.
Qed.

Lemma json_value_elem x xs : json_value (PList xs) = true -> x ∈ xs -> json_value x = true.
Proof. cbn [json_value]. apply forallb_elem_of. Qed.

Lemma json_value_pair k x members :
  json_value (PDict members) = true -> (k, x) ∈ members -> json_value x = true.
Proof. cbn [json_value]. intros H Hin. apply (forallb_elem_of _ _ _ H Hin). Qed.

(** *** Instances without tensors *)

Section TensorsOnJson.

Variable array_types : list string.
Variable resolve : pyval -> pyval -> result (pyval * pyval).

Local Abbreviation tc1 := (validator_type_checker array_types true).
Local Abbreviation tc2 := (validator_type_checker array_types false).

(** The two type checkers agree on every value that is no tensor. *)
Lemma is_type_json inst ty :
  json_value inst = true -> is_type tc1 inst ty = is_type tc2 inst ty.
Proof.
  intros Hinst. unfold is_type, validator_type_checker, redefine.
  destruct (String.eqb_spec ty "array") as [->|Hne]; [|done].
  by destruct inst.
Qed.

Lemma any_type_json inst names :
  json_value inst = true -> any_type tc1 inst names = any_type tc2 inst names.
Proof.
  intros Hinst. induction names as [|name names IH]; [done|]. cbn [any_type].
  destruct name; try done. by rewrite is_type_json, IH.
Qed.

Section Level.

Variable descend1 descend2 : pyval -> pyval -> pyval -> errors.
Hypothesis Hdescend : forall scope schema inst,
  json_value schema = true -> json_value inst = true ->
  descend1 scope schema inst = descend2 scope schema inst.
Hypothesis Hresolve : forall scope ref url schema,
  resolve scope ref = Return (url, schema) -> json_value schema = true.

Lemma after_first_valid_json scope inst subschemas :
  Forall (fun s => json_value s = true) subschemas -> json_value inst = true ->
  after_first_valid descend1 scope inst subschemas
  = after_first_valid descend2 scope inst subschemas.
Proof.
  intros Hall Hinst. induction Hall as [|s subschemas Hs _ IH]; [done|].
  cbn [after_first_valid]. rewrite (Hdescend _ _ _ Hs Hinst).
  destruct (collect _) as [[|? ?]|]; csimpl; auto.
Qed.

Lemma after_first_valid_rest (descend : pyval -> pyval -> pyval -> errors)
    (P : pyval -> Prop) scope inst subschemas rest :
  after_first_valid descend scope inst subschemas = Return (Some rest) ->
  Forall P subschemas -> Forall P rest.
Proof.
  intros H Hall. induction Hall as [|s subschemas Hs Hall IH]; [done|].
  cbn [after_first_valid] in H.
  destruct (collect _) as [[|? ?]|]; csimpl in *; [by simplify_eq|auto|done].
Qed.

Lemma more_valid_json scope inst subschemas :
  Forall (fun s => json_value s = true) subschemas -> json_value inst = true ->
  more_valid descend1 scope inst subschemas = more_valid descend2 scope inst subschemas.
Proof.
  intros Hall Hinst. induction Hall as [|s subschemas Hs _ IH]; [done|].
  cbn [more_valid]. unfold is_valid. by rewrite (Hdescend _ _ _ Hs Hinst), IH.
Qed.

Lemma Forall_json_value xs :
  json_value (PList xs) = true -> Forall (fun s => json_value s = true) xs.
Proof. intros H. apply Forall_forall. intros x Hx. by eapply json_value_elem. Qed.

(** Every keyword function gives the same errors under both checkers. *)
Lemma run_keyword_json scope k v inst :
  json_value v = true -> json_value inst = true ->
  run_keyword tc1 resolve descend1 scope k v inst
  = run_keyword tc2 resolve descend2 scope k v inst.
Proof.
  intros Hv Hinst. unfold run_keyword.
  assert (kw_ref resolve descend1 scope v inst = kw_ref resolve descend2 scope v inst)
    as ->.
  { unfold kw_ref. destruct (resolve scope v) as [[url resolved]|] eqn:Hres; [|done].
    apply Hdescend; [by eapply Hresolve|done]. }
  assert (kw_type tc1 v inst = kw_type tc2 v inst) as ->.
  { unfold kw_type. destruct v; cbn [mbind result_bind]; try done;
      by rewrite any_type_json. }
  assert (kw_properties tc1 descend1 scope v inst
          = kw_properties tc2 descend2 scope v inst) as ->.
  { unfold kw_properties, when_type. rewrite is_type_json by done.
    destruct (is_type tc2 inst "object") as [[]|]; try done.
    destruct v as [| | | | | |subschemas|], inst as [| | | | | |members|]; try done.
    apply chain_all_map_ext. intros [property subschema] Hin.
    destruct (dict_get members property) as [value|] eqn:Hvalue; [|done].
    rewrite Hdescend;
      [done|exact (json_value_pair _ _ _ Hv Hin)|exact (json_value_member _ _ _ Hinst Hvalue)]. }
  assert (kw_required tc1 v inst = kw_required tc2 v inst) as ->.
  { unfold kw_required, when_type. by rewrite is_type_json. }
  assert (kw_items tc1 descend1 scope v inst = kw_items tc2 descend2 scope v inst) as ->.
  { unfold kw_items, when_type. rewrite !is_type_json by done.
    destruct (is_type tc2 inst "array") as [[]|]; try done.
    destruct inst as [| | | | |elements| |]; try done.
    destruct (is_type tc2 v "array") as [[]|]; try done.
    - destruct v as [| | | | |subschemas| |]; try done.
      apply chain_all_map_ext. intros [[index item] subschema] Hin.
      rewrite Hdescend; [done| |].
      + apply elem_of_zip_r in Hin. exact (json_value_elem _ _ Hv Hin).
      + apply elem_of_zip_l, elem_of_zip_r in Hin. exact (json_value_elem _ _ Hinst Hin).
    - apply chain_all_map_ext. intros [index item] Hin.
      rewrite Hdescend; [done..|]. apply elem_of_zip_r in Hin.
      exact (json_value_elem _ _ Hinst Hin). }
  assert (kw_allOf descend1 scope v inst = kw_allOf descend2 scope v inst) as ->.
  { unfold kw_allOf. destruct v as [| | | | |subschemas| |]; try done.
    apply chain_all_map_ext. intros [index subschema] Hin.
    rewrite Hdescend; [done| |done]. apply elem_of_zip_r in Hin.
    exact (json_value_elem _ _ Hv Hin). }
  assert (kw_anyOf descend1 scope v inst = kw_anyOf descend2 scope v inst) as ->.
  { unfold kw_anyOf. destruct v as [| | | | |subschemas| |]; try done.
    by rewrite after_first_valid_json by (by try apply Forall_json_value). }
  assert (kw_oneOf descend1 scope v inst = kw_oneOf descend2 scope v inst) as ->.
  { unfold kw_oneOf. destruct v as [| | | | |subschemas| |]; try done.
    rewrite after_first_valid_json by (by try apply Forall_json_value).
    destruct (after_first_valid descend2 scope inst subschemas) as [[rest|]|] eqn:Hafter;
      try done.
    rewrite more_valid_json; [done| |done].
    eapply after_first_valid_rest; [exact Hafter|by apply Forall_json_value]. }
  assert (kw_not descend1 scope v inst = kw_not descend2 scope v inst) as ->.
  { unfold kw_not, is_valid. by rewrite Hdescend. }
  done.
Qed.

End Level.

(** So does the whole walk, references included, as long as the schemas
    they lead to are JSON documents. *)
Lemma iter_errors_json depth scope schema inst :
  (forall scope ref url schema,
     resolve scope ref = Return (url, schema) -> json_value schema = true) ->
  json_value schema = true -> json_value inst = true ->
  iter_errors tc1 resolve depth scope schema inst
  = iter_errors tc2 resolve depth scope schema inst.
Proof.
  intros Hresolve. revert scope schema inst.
  induction depth as [|d IH]; intros scope schema inst Hschema Hinst; [done|].
  cbn [iter_errors]. destruct schema as [|b| | | | |keywords|]; try done.
  destruct (dict_get keywords "$ref") as [ref|] eqn:Href.
  - assert (Hrun : run_keyword tc1 resolve (iter_errors tc1 resolve d)
                     (scope_of scope keywords) "$ref" ref inst
                   = run_keyword tc2 resolve (iter_errors tc2 resolve d)
                     (scope_of scope keywords) "$ref" ref inst).
    { apply run_keyword_json; [exact IH|exact Hresolve| |done].
      by eapply json_value_member. }
    destruct ref; try exact Hrun.
    apply chain_all_map_ext. intros [k v] Hin.
    apply run_keyword_json; [exact IH|exact Hresolve| |done]. by eapply json_value_pair.
  - apply chain_all_map_ext. intros [k v] Hin.
    apply run_keyword_json; [exact IH|exact Hresolve| |done]. by eapply json_value_pair.
Qed.

End TensorsOnJson.

(** *** The path of a violation *)

Lemma yields_chain g1 g2 e : yields (chain g1 g2) e -> yields g1 e \/ yields g2 e.
Proof.
  induction g1 as [|e' g1 IH|x]; cbn [chain yields]; [auto| |done].
  intros [->|H]; [auto|]. destruct (IH H); auto.
Qed.

Lemma yields_chain_all {A} (f : A -> errors) xs e :
  yields (chain_all (map f xs)) e -> exists x, x ∈ xs /\ yields (f x) e.
Proof.
  induction xs as [|x xs IH]; cbn [map chain_all foldr]; [done|].
  intros [H|H]%yields_chain.
  - exists x. split; [left|done].
  - destruct (IH H) as (y & Hy & Hyield). exists y. split; [by right|done].
Qed.

Lemma yields_each f g e : yields (each f g) e -> exists e0, yields g e0 /\ e = f e0.
Proof.
  induction g as [|e' g IH|x]; cbn [each yields]; [done| |done].
  intros [->|H]; [by eauto|]. destruct (IH H) as (e0 & H0 & ->). eauto.
Qed.

(** [enumerate] pairs every element with its own index. *)
Lemma elem_of_zip_seq {A} (xs : list A) start i x :
  (i, x) ∈ zip (seq start (length xs)) xs ->
  xs !! (i - start)%nat = Some x /\ (start <= i)%nat.
Proof.
  revert start. induction xs as [|y xs IH]; intros start; cbn [length seq zip zip_with].
  - by intros ?%elem_of_nil.
  - intros [[= -> ->]|H]%elem_of_cons.
    + by rewrite Nat.sub_diag.
    + destruct (IH _ H) as [Hx Hle]. split; [|lia].
      replace (i - start)%nat with (S (i - S start)) by lia. done.
Qed.

Lemma elem_of_enumerate {A} (xs : list A) i x : (i, x) ∈ enumerate xs -> xs !! i = Some x.
Proof.
  intros [H _]%elem_of_zip_seq. by rewrite Nat.sub_0_r in H.
Qed.

Section PathOfViolation.

Variable type_checker : TypeChecker.
Variable resolve : pyval -> pyval -> result (pyval * pyval).

Lemma located_violation k v inst : located (Yield (violation k v inst) Stop) inst.
Proof. intros e [->|[]]. done. Qed.

Lemma located_stop inst : located Stop inst.
Proof. intros e []. Qed.

Lemma located_throw x inst : located (Throw x) inst.
Proof. intros e []. Qed.

Local Ltac ends_located :=
  first [apply located_stop | apply located_throw | apply located_violation].

Section Level.

Variable descend : pyval -> pyval -> pyval -> errors.
Hypothesis Hdescend : forall scope schema inst, located (descend scope schema inst) inst.

(** A keyword function reports an error of its own at the instance it was
    given, with an empty path, or passes on the errors of a member with the
    name or index of that member put in front of their paths. *)
Lemma run_keyword_located scope k v inst :
  located (run_keyword type_checker resolve descend scope k v inst) inst.
Proof.
  unfold run_keyword. destruct (String.eqb k "$ref").
  { unfold kw_ref. destruct (resolve scope v) as [[url resolved]|]; [|ends_located].
    apply Hdescend. }
  intros e (e0 & He0 & ->)%yields_each. cbn [path instance schema_path_appendleft].
  revert e0 He0. change (located ?g inst) with (located g inst).
  fold (located
    (if String.eqb k "type" then kw_type type_checker v inst
     else if String.eqb k "properties" then kw_properties type_checker descend scope v inst
     else if String.eqb k "required" then kw_required type_checker v inst
     else if String.eqb k "items" then kw_items type_checker descend scope v inst
     else if String.eqb k "allOf" then kw_allOf descend scope v inst
     else if String.eqb k "anyOf" then kw_anyOf descend scope v inst
     else if String.eqb k "oneOf" then kw_oneOf descend scope v inst
     else if String.eqb k "not" then kw_not descend scope v inst
     else if existsb (String.eqb k) unmodelled_keywords then Throw (OutsideModel k)
     else Stop) inst).
  destruct (String.eqb k "type").
  { unfold kw_type. destruct (_ ≫= _) as [[]|]; ends_located. }
  destruct (String.eqb k "properties").
  { unfold kw_properties, when_type.
    destruct (is_type type_checker inst "object") as [[]|]; try ends_located.
    destruct v as [| | | | | |subschemas|], inst as [| | | | | |members|]; try ends_located.
    intros e ([property subschema] & _ & He)%yields_chain_all.
    destruct (dict_get members property) as [value|] eqn:Hvalue; [|destruct He].
    apply yields_each in He as (e0 & He0 & ->).
    cbn [path instance schema_path_appendleft path_appendleft lookup_path].
    rewrite Hvalue. apply (Hdescend _ _ _ _ He0). }
  destruct (String.eqb k "required").
  { unfold kw_required, when_type.
    destruct (is_type type_checker inst "object") as [[]|]; try ends_located.
    destruct v as [| | | | |names| |], inst as [| | | | | |members|]; try ends_located.
    intros e (name & _ & He)%yields_chain_all.
    revert e He.
    destruct name as [| | | |property| | |]; try ends_located.
    destruct (dict_get members property); ends_located. }
  destruct (String.eqb k "items").
  { unfold kw_items, when_type.
    destruct (is_type type_checker inst "array") as [[]|]; try ends_located.
    destruct inst as [| | | | |elements| |]; try ends_located.
    destruct (is_type type_checker v "array") as [[]|]; try ends_located.
    - destruct v as [| | | | |subschemas| |]; try ends_located.
      intros e ([[index item] subschema] & Hin & He)%yields_chain_all.
      apply yields_each in He as (e0 & He0 & ->).
      cbn [path instance schema_path_appendleft path_appendleft lookup_path].
      apply elem_of_zip_l, elem_of_enumerate in Hin. rewrite Hin.
      apply (Hdescend _ _ _ _ He0).
    - intros e ([index item] & Hin & He)%yields_chain_all.
      apply yields_each in He as (e0 & He0 & ->).
      cbn [path instance path_appendleft lookup_path].
      apply elem_of_enumerate in Hin. rewrite Hin.
      apply (Hdescend _ _ _ _ He0). }
  destruct (String.eqb k "allOf").
  { unfold kw_allOf. destruct v as [| | | | |subschemas| |]; try ends_located.
    intros e ([index subschema] & _ & He)%yields_chain_all.
    apply yields_each in He as (e0 & He0 & ->).
    cbn [path instance schema_path_appendleft]. apply (Hdescend _ _ _ _ He0). }
  destruct (String.eqb k "anyOf").
  { unfold kw_anyOf. destruct v as [| | | | |subschemas| |]; try ends_located.
    destruct (after_first_valid _ _ _ _) as [[|]|]; ends_located. }
  destruct (String.eqb k "oneOf").
  { unfold kw_oneOf. destruct v as [| | | | |subschemas| |]; try ends_located.
    destruct (after_first_valid _ _ _ _) as [[rest|]|]; try ends_located.
    destruct (more_valid _ _ _ _) as [[|]|]; ends_located. }
  destruct (String.eqb k "not").
  { unfold kw_not. destruct (is_valid _ _ _ _) as [[]|]; ends_located. }
  destruct (existsb _ _); ends_located.
Qed.

End Level.

(** Every error of the walk points at the value it reports. *)
Lemma iter_errors_located depth scope schema inst :
  located (iter_errors type_checker resolve depth scope schema inst) inst.
Proof.
  revert scope schema inst. induction depth as [|d IH]; intros scope schema inst; [ends_located|].
  cbn [iter_errors]. destruct schema as [|[]| | | | |keywords|]; try ends_located.
  - intros e [->|[]]. done.
  - destruct (dict_get keywords "$ref") as [[]|];
      try (by apply run_keyword_located);
      intros e ([k v] & _ & He)%yields_chain_all;
      by apply (run_keyword_located _ IH _ _ _ _ _ He).
Qed.

End PathOfViolation.

(** *** The recursion limit *)

(** The combinators of generators are monotone for [below]. *)
Lemma below_refl g : below g g.
Proof. induction g; by constructor. Qed.

Lemma below_trans g1 g2 g3 : below g1 g2 -> below g2 g3 -> below g1 g3.
Proof.
  intros H12. revert g3. induction H12; intros g3 H23; try done; [constructor|].
  inversion H23; subst; constructor; auto.
Qed.

Lemma below_chain g1 g1' g2 g2' :
  below g1 g1' -> below g2 g2' -> below (chain g1 g2) (chain g1' g2').
Proof. induction 1; intros H2; cbn [chain]; try done; constructor; auto. Qed.

Lemma below_each f g g' : below g g' -> below (each f g) (each f g').
Proof. induction 1; cbn [each]; constructor; auto. Qed.

Lemma below_chain_all {A} (f f' : A -> errors) xs :
  (forall x, below (f x) (f' x)) -> below (chain_all (map f xs)) (chain_all (map f' xs)).
Proof.
  intros H. induction xs as [|x xs IH]; cbn [map chain_all foldr]; [constructor|].
  by apply below_chain.
Qed.

Lemma collect_below g g' : below g g' -> result_below (collect g) (collect g').
Proof.
  induction 1 as [| |e rest rest' _ [IH|IH]|]; cbn [collect];
    [by left|by right|left; by rewrite IH|right; by rewrite IH|by right].
Qed.

Lemma no_error_below g g' : below g g' -> result_below (no_error g) (no_error g').
Proof. destruct 1; cbn [no_error]; [by left|by right..]. Qed.

Section WalkLimit.

Variable type_checker : TypeChecker.
Variable resolve : pyval -> pyval -> result (pyval * pyval).

Section Level.

Variable descend descend' : pyval -> pyval -> pyval -> errors.
Hypothesis Hdescend : forall scope schema inst,
  below (descend scope schema inst) (descend' scope schema inst).

Lemma after_first_valid_below scope inst subschemas :
  result_below (after_first_valid descend scope inst subschemas)
               (after_first_valid descend' scope inst subschemas).
Proof.
  induction subschemas as [|s subschemas IH]; [by right|]. cbn [after_first_valid].
  destruct (collect_below _ _ (Hdescend scope s inst)) as [->| ->]; [by left|].
  destruct (collect _) as [[|? ?]|]; csimpl; [by right|done|by right].
Qed.

Lemma more_valid_below scope inst subschemas :
  result_below (more_valid descend scope inst subschemas)
               (more_valid descend' scope inst subschemas).
Proof.
  induction subschemas as [|s subschemas IH]; [by right|]. cbn [more_valid].
  unfold is_valid.
  destruct (no_error_below _ _ (Hdescend scope s inst)) as [->| ->]; [by left|].
  destruct (no_error _) as [ok|]; csimpl; [|by right].
  destruct IH as [->| ->]; [by left|by right].
Qed.

(** A keyword function that descends further goes on where the one that
    descends less deep has run out of depth. *)
Lemma run_keyword_below scope k v inst :
  below (run_keyword type_checker resolve descend scope k v inst)
        (run_keyword type_checker resolve descend' scope k v inst).
Proof.
  unfold run_keyword. destruct (String.eqb k "$ref").
  { unfold kw_ref. destruct (resolve scope v) as [[url resolved]|]; [|apply below_refl].
    apply Hdescend. }
  apply below_each.
  destruct (String.eqb k "type"); [apply below_refl|].
  destruct (String.eqb k "properties").
  { unfold kw_properties, when_type.
    destruct (is_type type_checker inst "object") as [[]|]; try apply below_refl.
    destruct v as [| | | | | |subschemas|], inst as [| | | | | |members|];
      try apply below_refl.
    apply below_chain_all. intros [property subschema].
    destruct (dict_get members property); [|apply below_refl].
    apply below_each, Hdescend. }
  destruct (String.eqb k "required"); [apply below_refl|].
  destruct (String.eqb k "items").
  { unfold kw_items, when_type.
    destruct (is_type type_checker inst "array") as [[]|]; try apply below_refl.
    destruct inst as [| | | | |elements| |]; try apply below_refl.
    destruct (is_type type_checker v "array") as [[]|]; try apply below_refl.
    - destruct v as [| | | | |subschemas| |]; try apply below_refl.
      apply below_chain_all. intros [[index item] subschema]. apply below_each, Hdescend.
    - apply below_chain_all. intros [index item]. apply below_each, Hdescend. }
  destruct (String.eqb k "allOf").
  { unfold kw_allOf. destruct v as [| | | | |subschemas| |]; try apply below_refl.
    apply below_chain_all. intros [index subschema]. apply below_each, Hdescend. }
  destruct (String.eqb k "anyOf").
  { unfold kw_anyOf. destruct v as [| | | | |subschemas| |]; try apply below_refl.
    destruct (after_first_valid_below scope inst subschemas) as [->| ->];
      [constructor|apply below_refl]. }
  destruct (String.eqb k "oneOf").
  { unfold kw_oneOf. destruct v as [| | | | |subschemas| |]; try apply below_refl.
    destruct (after_first_valid_below scope inst subschemas) as [->| ->]; [constructor|].
    destruct (after_first_valid descend' scope inst subschemas) as [[rest|]|];
      try apply below_refl.
    destruct (more_valid_below scope inst rest) as [->| ->];
      [constructor|apply below_refl]. }
  destruct (String.eqb k "not").
  { unfold kw_not, is_valid.
    destruct (no_error_below _ _ (Hdescend scope v inst)) as [->| ->];
      [constructor|apply below_refl]. }
  apply below_refl.
Qed.

End Level.

(** One more level of depth only changes the walk where it raised
    [RecursionError]. *)
Lemma iter_errors_step depth scope schema inst :
  below (iter_errors type_checker resolve depth scope schema inst)
        (iter_errors type_checker resolve (S depth) scope schema inst).
Proof.
  revert scope schema inst. induction depth as [|d IH]; intros scope schema inst;
    [constructor|].
  cbn [iter_errors]. destruct schema as [|[]| | | | |keywords|]; try apply below_refl.
  destruct (dict_get keywords "$ref") as [[]|];
    try (by apply run_keyword_below);
    apply below_chain_all; intros [k v]; by apply run_keyword_below.
Qed.

Lemma iter_errors_limit depth depth' scope schema inst :
  (depth <= depth')%nat ->
  below (iter_errors type_checker resolve depth scope schema inst)
        (iter_errors type_checker resolve depth' scope schema inst).
Proof.
  induction 1 as [|depth' _ IH]; [apply below_refl|].
  eapply below_trans; [exact IH|apply iter_errors_step].
Qed.

End WalkLimit.

Section ValidateFurther.

Variable joinpath : string -> string -> string.
Variable read_schema : string -> string -> result pyval.
Variable ref_resolver :
  gmap string pyval -> string -> pyval -> pyval -> result (pyval * pyval).
Variable base_uri : string.




End ValidateFurther.

Lemma store_resolver_json scope ref url resolved :
  store_resolver array_cache "array.json" scope ref = Return (url, resolved) ->
  json_value resolved = true.
Proof.
  unfold store_resolver. destruct ref as [| | | |id| | |]; try discriminate.
  destruct (array_cache !! id) as [schema|] eqn:Hid; [|discriminate].
  intros [= _ <-]. unfold array_cache in Hid.
  apply lookup_singleton_Some in Hid as [_ <-]. reflexivity.
Qed.



